(** * The ATS keyword-match scorer of [server.js]

    A shallow embedding of the route [POST /api/calculate-ats]
    (server.js, lines 106-146) and of the JavaScript built-ins it calls:
    [String.prototype.split], [trim], [toLowerCase], [includes],
    Number division and multiplication (IEEE 754 binary64) and
    [Math.round].

    Texts are modelled over 8-bit code units (the range U+0000..U+00FF of
    a JavaScript string); numbers are the binary64 values of the
    standard library's [SpecFloat], so the arithmetic of line 139 is
    evaluated exactly as a JavaScript engine evaluates it. *)

From Stdlib Require Import ZArith Lia List Bool Ascii String Permutation.
From Stdlib Require Import Floats.SpecFloat.
Import ListNotations.

Open Scope string_scope.

(* ================================================================== *)
(** * JavaScript strings *)
(* ================================================================== *)

Module JSString.

(** The code unit of a character. *)
Definition code (c : ascii) : N := N_of_ascii c.

(** ECMAScript [WhiteSpace] and [LineTerminator] code points below
    U+0100: TAB, LF, VT, FF, CR, SP and NBSP. *)
Definition isWhiteSpace (c : ascii) : bool :=
  match code c with
  | 9 | 10 | 11 | 12 | 13 | 32 | 160 => true
  | _ => false
  end%N.

(** The lower-case mapping of the Unicode character database on
    U+0000..U+00FF: A-Z and the Latin-1 capitals U+00C0..U+00DE
    (the multiplication sign U+00D7 apart) move up by 32. *)
Definition isUpper (c : ascii) : bool :=
  let n := code c in
  ((65 <=? n) && (n <=? 90)
   || ((192 <=? n) && (n <=? 222) && negb (n =? 215)))%N.

Definition lowerChar (c : ascii) : ascii :=
  if isUpper c then ascii_of_N (code c + 32) else c.

(** [s.toLowerCase()] *)
Fixpoint toLowerCase (s : string) : string :=
  match s with
  | EmptyString => EmptyString
  | String c s' => String (lowerChar c) (toLowerCase s')
  end.

Fixpoint trimStart (s : string) : string :=
  match s with
  | EmptyString => EmptyString
  | String c s' => if isWhiteSpace c then trimStart s' else s
  end.

Fixpoint trimEnd (s : string) : string :=
  match s with
  | EmptyString => EmptyString
  | String c s' =>
      match trimEnd s' with
      | EmptyString => if isWhiteSpace c then EmptyString
                       else String c EmptyString
      | t => String c t
      end
  end.

(** [s.trim()] *)
Definition trim (s : string) : string := trimEnd (trimStart s).

(** The piece of [s] before its first separator, and the pieces after
    it. *)
Fixpoint split_pieces (sep : ascii) (s : string) : string * list string :=
  match s with
  | EmptyString => (EmptyString, [])
  | String c s' =>
      let (p, ps) := split_pieces sep s' in
      if Ascii.eqb c sep then (EmptyString, p :: ps) else (String c p, ps)
  end.

(** The first [lim] elements of a list, [lim] a binary number. *)
Fixpoint take (lim : N) (l : list string) : list string :=
  match l with
  | [] => []
  | x :: l' => if (lim =? 0)%N then [] else x :: take (N.pred lim) l'
  end.

(** The default [limit] of [split]: 2^32 - 1 elements. *)
Definition split_limit : N := 4294967295.

(** [s.split(sep)] for a one-character separator and no [limit]
    argument. *)
Definition split (sep : ascii) (s : string) : list string :=
  let (p, ps) := split_pieces sep s in take split_limit (p :: ps).

(** [s.includes(searchString)]: [searchString] occurs in [s] at some
    position. *)
Fixpoint includes (s searchString : string) : bool :=
  prefix searchString s
  || match s with
     | EmptyString => false
     | String _ s' => includes s' searchString
     end.

End JSString.

(* ================================================================== *)
(** * JavaScript numbers *)
(* ================================================================== *)

Module JSNumber.

Open Scope Z_scope.

(** A Number is an IEEE 754 binary64 value. *)
Definition prec : Z := 53.
Definition emax : Z := 1024.
Definition Number : Type := spec_float.

Definition NaN : Number := S754_nan.

(** The Number of an integer (exact below 2^53). *)
Definition of_Z (z : Z) : Number := binary_normalize prec emax z 0 false.
Definition of_nat (n : nat) : Number := of_Z (Z.of_nat n).

(** [x / y] and [x * y] *)
Definition div (x y : Number) : Number := SFdiv prec emax x y.
Definition mul (x y : Number) : Number := SFmul prec emax x y.

(** [Math.round(x)]: the integer closest to [x], ties towards
    +Infinity, that is floor(x + 1/2) computed exactly; NaN, the
    infinities, the zeros and the integral values are returned as they
    are, and a result of zero keeps the sign of [x]. *)
Definition Math_round (x : Number) : Number :=
  match x with
  | S754_finite s m e =>
      if 0 <=? e then x
      else
        match (cond_Zopp s (2 * Zpos m) + 2 ^ (- e)) / 2 ^ (- e + 1) with
        | Z0 => S754_zero s
        | z => of_Z z
        end
  | _ => x
  end.

(** Structural equality of Numbers, as a test. *)
Definition Number_eqb (x y : Number) : bool :=
  match x, y with
  | S754_zero a, S754_zero b => Bool.eqb a b
  | S754_infinity a, S754_infinity b => Bool.eqb a b
  | S754_nan, S754_nan => true
  | S754_finite a m e, S754_finite b m' e' =>
      Bool.eqb a b && Pos.eqb m m' && Z.eqb e e'
  | _, _ => false
  end.

End JSNumber.

(* ================================================================== *)
(** * The scoring step (server.js, lines 128-139) *)
(* ================================================================== *)

Import JSString JSNumber.

(** Line 128: [keywordsText.split(',').map(kw => kw.trim().toLowerCase())] *)
Definition keywords_of (keywordsText : string) : list string :=
  map (fun kw => toLowerCase (trim kw)) (split "," keywordsText).

(** Lines 130-137: the [forEach] loop, threading the counter
    [matchCount] through the keywords. *)
Definition count_step (resumeTextLower : string) (matchCount : nat)
    (keyword : string) : nat :=
  if includes resumeTextLower keyword then S matchCount else matchCount.

Definition matchCount_of (keywords : list string) (resumeTextLower : string)
    : nat :=
  fold_left (count_step resumeTextLower) keywords 0%nat.

(** Line 139: [Math.round((matchCount / keywords.length) * 100)] *)
Definition percentage (matchCount len : nat) : Number :=
  Math_round (mul (div (of_nat matchCount) (of_nat len)) (of_Z 100)).

(** Lines 130-139 as a function of the keyword list and the resume text. *)
Definition score_of (keywords : list string) (resumeText : string) : Number :=
  let resumeTextLower := toLowerCase resumeText in
  let matchCount := matchCount_of keywords resumeTextLower in
  percentage matchCount (List.length keywords).

(** Lines 128-139. *)
Definition ats_score (keywordsText resumeText : string) : Number :=
  score_of (keywords_of keywordsText) resumeText.

(* ================================================================== *)
(** * The request handler (server.js, lines 106-146) *)
(* ================================================================== *)

(** [req.file] (set by multer when the form has a [resume] part) and
    [req.body.jobDescription]; an absent field is [None]. *)
Record request : Type := {
  file : option (list Byte.byte);
  jobDescription : option string
}.

Inductive response : Type :=
| Send (status : nat) (body : string)      (* res.status(n).send(text) *)
| Json (score : Number).                   (* res.json({ score })      *)

(** The calls to the external collaborators, in the order made. *)
Inductive call : Type :=
| PdfParse (buffer : list Byte.byte)
| GenerateContent (prompt : string).

(** Computations that call out and may throw: the calls made so far are
    threaded through, [None] is a thrown exception or rejected promise. *)
Definition Ext (A : Type) : Type := list call -> option A * list call.

Definition ret {A} (a : A) : Ext A := fun log => (Some a, log).

Definition bind {A B} (m : Ext A) (k : A -> Ext B) : Ext B :=
  fun log =>
    match m log with
    | (Some a, log') => k a log'
    | (None, log') => (None, log')
    end.

Notation "x <- m ;; k" := (bind m (fun x => k))
  (at level 61, m at next level, right associativity).

(** [try { body } catch (error) { handler }] *)
Definition try_catch {A} (body : Ext A) (handler : A)
    : list call -> A * list call :=
  fun log =>
    match body log with
    | (Some a, log') => (a, log')
    | (None, log') => (handler, log')
    end.

(** JavaScript truthiness of a string-valued field: [undefined] and the
    empty string are falsy. *)
Definition truthy (field : option string) : bool :=
  match field with
  | None | Some EmptyString => false
  | Some _ => true
  end.

Definition dquote : string := String (ascii_of_nat 34) EmptyString.

(** Lines 117-123: the template literal [keywordsPrompt]. *)
Definition keywordsPrompt (jobDescription : string) : string :=
  "
            From the following job description, extract the top 15 most important technical skills,
            soft skills, and qualifications. Return them as a simple comma-separated list.
            Do not add any extra explanation or formatting.

            Job Description: " ++ dquote ++ jobDescription ++ dquote ++ "
        ".

Section Handler.

(** The document text extractor: [(await pdf(buffer)).text]. *)
Variable pdf : list Byte.byte -> option string.

(** The text generation service:
    [(await (await model.generateContent(prompt)).response).text()]. *)
Variable generateContent : string -> option string.

Definition await_pdf (buffer : list Byte.byte) : Ext string :=
  fun log => (pdf buffer, (log ++ [PdfParse buffer])%list).

Definition await_generateContent (prompt : string) : Ext string :=
  fun log => (generateContent prompt, (log ++ [GenerateContent prompt])%list).

Definition handler_body (req : request) : Ext response :=
  match file req with
  | Some resumeBuffer =>
      if truthy (jobDescription req) then
        resumeText <- await_pdf resumeBuffer ;;
        let jobDescription :=
          match jobDescription req with Some jd => jd | None => "" end in
        keywordsText <- await_generateContent (keywordsPrompt jobDescription) ;;
        ret (Json (ats_score keywordsText resumeText))
      else ret (Send 400 "Resume file and job description are required.")
  | None => ret (Send 400 "Resume file and job description are required.")
  end.

(** The handler: the response sent and the external calls made. *)
Definition calculate_ats (req : request) : response * list call :=
  try_catch (handler_body req)
    (Send 500 "An error occurred while calculating the ATS score.") [].

End Handler.

(* ================================================================== *)
(** * The score as the specification words it *)
(* ================================================================== *)

(** round(a / b) over the exact rationals, a tie going up:
    floor(a / b + 1/2). *)
Definition round_half_up (a b : Z) : Z := ((2 * a + b) / (2 * b))%Z.

(** The count of keywords for which [ResumeText.lower().contains(keyword)]
    is true. *)
Definition spec_matchCount (keywords : list string) (resumeText : string)
    : nat :=
  List.length
    (filter (fun keyword => includes (toLowerCase resumeText) keyword)
       keywords).

(** [round(100 * matchCount / len(KeywordList))] *)
Definition spec_score (keywords : list string) (resumeText : string) : Z :=
  round_half_up (100 * Z.of_nat (spec_matchCount keywords resumeText))
    (Z.of_nat (List.length keywords)).

(** The usable keywords of a response: its elements that are not empty
    once trimmed. *)
Definition usable_keywords (keywordsText : string) : list string :=
  filter (fun kw => negb (String.eqb kw "")) (keywords_of keywordsText).

(** A response of 40 keywords: 23 times [a], 17 times [b]. *)
Definition keywords40 : string :=
  "a,a,a,a,a,a,a,a,a,a,a,a,a,a,a,a,a,a,a,a,a,a,a,b,b,b,b,b,b,b,b,b,b,b,b,b,b,b,b,b".

(** The pairs [(m, n)], [m <= n], [1 <= n <= bound], on which line 139
    disagrees with the exact rounded percentage. *)
Definition inexact_percentages (bound : nat) : list (nat * nat) :=
  flat_map
    (fun n =>
       flat_map
         (fun m =>
            if Number_eqb (percentage m n)
                 (of_Z (round_half_up (100 * Z.of_nat m) (Z.of_nat n)))
            then [] else [(m, n)])
         (seq 0 (S n)))
    (seq 1 bound).

(* ================================================================== *)
(** * Notions used to state further properties of the code *)
(* ================================================================== *)

(** The number of occurrences of a character in a text. *)
Fixpoint count_char (c : ascii) (s : string) : nat :=
  match s with
  | EmptyString => 0
  | String x s' => ((if Ascii.eqb x c then 1 else 0) + count_char c s')%nat
  end.

(** The integer an integral Number stands for (0 for the others). *)
Definition to_Z (x : Number) : Z :=
  match x with
  | S754_finite s m e =>
      cond_Zopp s (if (0 <=? e)%Z then Zpos m * 2 ^ e
                   else Zpos m / 2 ^ (- e))%Z
  | _ => 0%Z
  end.

(** A percentage [100 * m / n] that lies halfway between two
    integers. *)
Definition is_tie (m n : nat) : bool :=
  ((200 * Z.of_nat m + Z.of_nat n) mod (2 * Z.of_nat n) =? 0)%Z.

(* ================================================================== *)
(** * The built-ins and the handler on concrete inputs *)
(* ================================================================== *)

Module Examples.

Example split_commas :
  split "," "a, b,,c," = ["a"; " b"; ""; "c"; ""].
Proof. reflexivity. Qed.

Example split_no_comma : split "," "abc" = ["abc"].
Proof. reflexivity. Qed.

Example trim_both_ends : trim "  machine learning  " = "machine learning".
Proof. reflexivity. Qed.

Example trim_blank : trim "   " = "".
Proof. reflexivity. Qed.

Example toLowerCase_ascii : toLowerCase "Node.JS 18" = "node.js 18".
Proof. reflexivity. Qed.

Example includes_inside : includes "typescript" "script" = true.
Proof. reflexivity. Qed.

Example includes_absent : includes "javascript" "python" = false.
Proof. reflexivity. Qed.

Example includes_longer : includes "sql" "mysql" = false.
Proof. reflexivity. Qed.

Example keywords_normalised :
  keywords_of " Python , SQL,Team Work " = ["python"; "sql"; "team work"].
Proof. reflexivity. Qed.

(** [Math.round(2.5) = 3], [Math.round(-2.5) = -2],
    [Math.round(-0.25) = -0], [Math.round(0.75) = 1]. *)
Example Math_round_tie_up :
  Math_round (div (of_Z 5) (of_Z 2)) = of_Z 3.
Proof. reflexivity. Qed.

Example Math_round_negative_tie :
  Math_round (div (of_Z (-5)) (of_Z 2)) = of_Z (-2).
Proof. reflexivity. Qed.

Example Math_round_negative_zero :
  Math_round (div (of_Z (-1)) (of_Z 4)) = S754_zero true.
Proof. reflexivity. Qed.

Example Math_round_up :
  Math_round (div (of_Z 3) (of_Z 4)) = of_Z 1.
Proof. reflexivity. Qed.

Example percentage_two_thirds : percentage 2 3 = of_Z 67.
Proof. reflexivity. Qed.

Example percentage_one_eighth : percentage 1 8 = of_Z 13.
Proof. reflexivity. Qed.

Example percentage_of_nothing : percentage 0 0 = NaN.
Proof. reflexivity. Qed.

Example handler_scores :
  calculate_ats (fun _ => Some "Python and SQL developer")
    (fun _ => Some "Python, SQL, Communication, Leadership")
    {| file := Some []; jobDescription := Some "Data engineer" |}
  = (Json (of_Z 50),
     [PdfParse []; GenerateContent (keywordsPrompt "Data engineer")]).
Proof. reflexivity. Qed.

Example handler_empty_description :
  calculate_ats (fun _ => Some "Python") (fun _ => Some "python")
    {| file := Some []; jobDescription := Some "" |}
  = (Send 400 "Resume file and job description are required.", []).
Proof. reflexivity. Qed.

Example handler_unreadable_pdf :
  calculate_ats (fun _ => None) (fun _ => Some "python")
    {| file := Some []; jobDescription := Some "Data engineer" |}
  = (Send 500 "An error occurred while calculating the ATS score.",
     [PdfParse []]).
Proof. reflexivity. Qed.

Example handler_generation_fails :
  calculate_ats (fun _ => Some "Python") (fun _ => None)
    {| file := Some []; jobDescription := Some "Data engineer" |}
  = (Send 500 "An error occurred while calculating the ATS score.",
     [PdfParse []; GenerateContent (keywordsPrompt "Data engineer")]).
Proof. reflexivity. Qed.

End Examples.

(* ================================================================== *)
(** * Facts about the string built-ins *)
(* ================================================================== *)

Module JSStringFacts.

Import JSString.

Lemma append_assoc (a b c : string) : (a ++ b) ++ c = a ++ (b ++ c).
Proof. induction a as [|x a IH]; simpl; [reflexivity | now rewrite IH]. Qed.

Lemma prefix_app (a s : string) :
  prefix a s = true <-> exists b, s = a ++ b.
Proof.
  revert s; induction a as [|x a IH]; intros s.
  - destruct s; simpl; split; eauto.
  - destruct s as [|y s]; simpl.
    + split; [discriminate | intros [b Hb]; discriminate].
    + destruct (ascii_dec x y) as [->|Hxy].
      * rewrite IH; split; intros [b Hb]; exists b; congruence.
      * split; [discriminate | intros [b Hb]; congruence].
Qed.

Lemma includes_nil (t : string) : includes "" t = prefix t "".
Proof. simpl. apply orb_false_r. Qed.

Lemma includes_cons (c : ascii) (s t : string) :
  includes (String c s) t = prefix t (String c s) || includes s t.
Proof. reflexivity. Qed.

(** [includes] is substring containment. *)
Lemma includes_spec (s t : string) :
  includes s t = true <-> exists a b, s = a ++ t ++ b.
Proof.
  split.
  - induction s as [|c s IH].
    + rewrite includes_nil. intros H.
      apply prefix_app in H as [b Hb]. now exists "", b.
    + rewrite includes_cons, orb_true_iff. intros [H|H].
      * apply prefix_app in H as [b Hb]. now exists "", b.
      * destruct (IH H) as (a & b & ->). now exists (String c a), b.
  - intros (a & b & ->). induction a as [|c a IH].
    + assert (H : prefix t (t ++ b) = true) by (apply prefix_app; eauto).
      change ("" ++ t ++ b) with (t ++ b).
      destruct (t ++ b).
      * now rewrite includes_nil.
      * now rewrite includes_cons, H.
    + change (String c a ++ t ++ b) with (String c (a ++ t ++ b)).
      rewrite includes_cons, IH. apply orb_true_r.
Qed.

(** The empty string occurs in every string. *)
Lemma includes_empty (s : string) : includes s "" = true.
Proof. apply includes_spec. now exists "", s. Qed.

Lemma includes_trans (s t u : string) :
  includes s t = true -> includes t u = true -> includes s u = true.
Proof.
  rewrite !includes_spec. intros (a & b & ->) (a' & b' & ->).
  exists (a ++ a'), (b' ++ b). now rewrite !append_assoc.
Qed.

(** On the code units below U+0100, the texts of this model,
    lower-casing goes character by character. *)
Lemma toLowerCase_app (a b : string) :
  toLowerCase (a ++ b) = toLowerCase a ++ toLowerCase b.
Proof. induction a as [|x a IH]; simpl; [reflexivity | now rewrite IH]. Qed.

(** Lower-casing both sides keeps an occurrence (of a text of code
    units below U+0100, whose characters are lower-cased one by one
    whatever surrounds them). *)
Lemma includes_toLowerCase (s t : string) :
  includes s t = true -> includes (toLowerCase s) (toLowerCase t) = true.
Proof.
  rewrite !includes_spec. intros (a & b & ->).
  exists (toLowerCase a), (toLowerCase b). now rewrite !toLowerCase_app.
Qed.

Lemma take_length (lim : N) (l : list string) :
  (N.of_nat (List.length (take lim l)) <= lim)%N.
Proof.
  revert lim; induction l as [|x l IH]; intros lim; simpl; [lia|].
  destruct (N.eqb_spec lim 0) as [->|Hn]; simpl; [lia|].
  specialize (IH (N.pred lim)). lia.
Qed.

Lemma split_cons (sep : ascii) (s : string) :
  exists p ps, split sep s = p :: ps.
Proof.
  unfold split. destruct (split_pieces sep s) as [p ps].
  exists p. simpl. eauto.
Qed.

(** Splitting yields at least one and at most 2^32 - 1 elements. *)
Lemma split_length (sep : ascii) (s : string) :
  (1 <= Z.of_nat (List.length (split sep s)) < 2 ^ 32)%Z.
Proof.
  split.
  - destruct (split_cons sep s) as (p & ps & ->).
    change (List.length (p :: ps)) with (S (List.length ps)). lia.
  - unfold split. destruct (split_pieces sep s) as [p ps].
    pose proof (take_length split_limit (p :: ps)) as H.
    unfold split_limit in *. change (2 ^ 32)%Z with 4294967296%Z. lia.
Qed.

End JSStringFacts.

(* ================================================================== *)
(** * Facts about binary64 arithmetic

    What the scorer needs of [SFdiv], [SFmul] and [binary_round_aux]:
    small integers are represented exactly, a quotient [m / n] with
    [m <= n] exceeds 1 by at most one unit in the last place, and the
    product with 100, rounded to an integer, stays between 0 and 100. *)
(* ================================================================== *)

Module JSNumberFacts.

Open Scope Z_scope.

(** ** Binary digits *)

Lemma digits2_pos_size (p : positive) : digits2_pos p = Pos.size p.
Proof. induction p; simpl; congruence. Qed.

Lemma digits2_bounds (p : positive) :
  2 ^ (Zpos (digits2_pos p) - 1) <= Zpos p < 2 ^ Zpos (digits2_pos p).
Proof.
  rewrite digits2_pos_size.
  pose proof (Pos.size_gt p) as Hgt. pose proof (Pos.size_le p) as Hle.
  apply Pos2Z.pos_lt_pos in Hgt. apply Pos2Z.pos_le_pos in Hle.
  rewrite Pos2Z.inj_pow in Hgt, Hle.
  change (Zpos p~0) with (2 * Zpos p) in Hle.
  replace (Zpos (Pos.size p)) with (Z.succ (Zpos (Pos.size p) - 1)) in Hle at 1 by lia.
  rewrite Z.pow_succ_r in Hle by lia. lia.
Qed.

Lemma digits2_unique (p : positive) (d : Z) :
  2 ^ (d - 1) <= Zpos p < 2 ^ d -> Zpos (digits2_pos p) = d.
Proof.
  intros [Hlo Hhi]. pose proof (digits2_bounds p) as [Hlo' Hhi'].
  assert (Hd : 0 < d).
  { destruct (Z.ltb_spec 0 d) as [|Hn]; [assumption|].
    destruct (Z.eqb_spec d 0) as [->|]; [simpl in Hhi; lia|].
    rewrite Z.pow_neg_r in Hhi by lia. lia. }
  assert (H1 : d - 1 < Zpos (digits2_pos p)).
  { apply (Z.pow_lt_mono_r_iff 2); lia. }
  assert (H2 : Zpos (digits2_pos p) - 1 < d).
  { apply (Z.pow_lt_mono_r_iff 2); lia. }
  lia.
Qed.

(** ** Shifting a mantissa to the right *)

Lemma iter_pos_iter {A} (f : A -> A) (n : positive) (x : A) :
  iter_pos f n x = Pos.iter f x n.
Proof.
  revert x; induction n as [n IH|n IH|]; intros x; simpl.
  - now rewrite !IH, <- !Pos.iter_swap.
  - now rewrite !IH.
  - reflexivity.
Qed.

Lemma shr_1_m (r : shr_record) :
  0 <= shr_m r -> shr_m (shr_1 r) = shr_m r / 2.
Proof.
  destruct r as [m b c]; simpl. intros Hm.
  rewrite <- Z.div2_div.
  destruct m as [|[q|q|]|q]; try reflexivity; lia.
Qed.

Lemma iter_shr_1_m (k : positive) (r : shr_record) :
  0 <= shr_m r ->
  shr_m (iter_pos shr_1 k r) = shr_m r / 2 ^ Zpos k.
Proof.
  intros Hm. rewrite iter_pos_iter.
  apply (Pos.iter_ind _ shr_1 r
           (fun k r' => shr_m r' = shr_m r / 2 ^ Zpos k)).
  - now rewrite shr_1_m.
  - intros q r' IH. rewrite shr_1_m.
    + rewrite IH, Pos2Z.inj_succ, Z.pow_succ_r by lia.
      rewrite Z.div_div by lia. f_equal. lia.
    + rewrite IH. apply Z.div_pos; lia.
Qed.

Lemma shr_spec (r : shr_record) (e k : Z) :
  0 <= shr_m r -> 0 <= k ->
  exists r', shr r e k = (r', e + k) /\ shr_m r' = shr_m r / 2 ^ k.
Proof.
  intros Hm Hk. destruct k as [|k|k]; [| |lia].
  - exists r. simpl. rewrite Z.add_0_r, Z.div_1_r. now split.
  - exists (iter_pos shr_1 k r). split; [reflexivity|].
    now apply iter_shr_1_m.
Qed.


(** ** Rounding *)

(** Settles the overflow test of [binary_round_aux] when the exponent
    is in range. *)
Ltac in_range :=
  match goal with
  | |- context [Z.leb ?a ?b] =>
      destruct (Z.leb_spec a b) as [|Hn];
      [reflexivity | unfold emax, prec in Hn; lia]
  end.

Lemma fexp_normal (e : Z) : -1021 <= e -> fexp prec emax e = e - 53.
Proof. intros H. unfold fexp, emin, prec, emax. lia. Qed.

Lemma round_nearest_even_bounds (m : Z) (l : location) :
  m <= round_nearest_even m l <= m + 1.
Proof.
  destruct l as [|[]]; simpl; try lia. destruct (Z.even m); lia.
Qed.

Lemma shr_record_of_loc_m (m : Z) (l : location) :
  shr_m (shr_record_of_loc m l) = m.
Proof. destruct l as [|[]]; reflexivity. Qed.

Lemma shr_fexp_53 (M : positive) (E : Z) :
  Zpos (digits2_pos M) = 53 -> -1074 <= E ->
  shr_fexp prec emax (Zpos M) E loc_Exact
  = ({| shr_m := Zpos M; shr_r := false; shr_s := false |}, E).
Proof.
  intros Hd HE. unfold shr_fexp. simpl Zdigits2.
  rewrite Hd, fexp_normal by lia.
  replace (53 + E - 53 - E) with 0 by lia. reflexivity.
Qed.

(** A mantissa that rounding carried to 2^53 is renormalised. *)
Lemma shr_fexp_carry (E : Z) :
  -1075 <= E ->
  shr_fexp prec emax (2 ^ 53) E loc_Exact
  = ({| shr_m := 2 ^ 52; shr_r := false; shr_s := false |}, E + 1).
Proof.
  intros HE. unfold shr_fexp.
  change (Zdigits2 (2 ^ 53)) with 54. rewrite fexp_normal by lia.
  replace (54 + E - 53 - E) with 1 by lia. reflexivity.
Qed.

(** A mantissa of exactly 53 bits with an exponent in range is left
    as it is. *)
Lemma binary_round_aux_exact (s : bool) (M : positive) (E : Z) :
  Zpos (digits2_pos M) = 53 -> -1074 <= E <= 971 ->
  binary_round_aux prec emax s (Zpos M) E loc_Exact = S754_finite s M E.
Proof.
  intros Hd HE.
  pose proof (shr_fexp_53 M E Hd (proj1 HE)) as Hs.
  unfold binary_round_aux. rewrite Hs. simpl. rewrite Hs. simpl.
  in_range.
Qed.


(** The general case: a mantissa of at least 53 bits is cut down to
    53 bits and moved up by at most one unit in the last place. *)
Lemma binary_round_aux_bounds (s : bool) (p : positive) (ex : Z)
    (lx : location) :
  let k := Zpos (digits2_pos p) - 53 in
  0 <= k -> -1074 <= ex + k -> ex + k < 971 ->
  exists Mr Er,
    binary_round_aux prec emax s (Zpos p) ex lx = S754_finite s Mr Er
    /\ 2 ^ 52 <= Zpos Mr < 2 ^ 53
    /\ ((Er = ex + k /\ Zpos p / 2 ^ k <= Zpos Mr <= Zpos p / 2 ^ k + 1)
        \/ (Er = ex + k + 1 /\ Zpos Mr = 2 ^ 52
            /\ Zpos p / 2 ^ k = 2 ^ 53 - 1)).
Proof.
  intros k Hk Hlo Hhi.
  pose proof (digits2_bounds p) as Hp.
  set (t := Zpos p / 2 ^ k).
  assert (Ht : 2 ^ 52 <= t < 2 ^ 53).
  { replace (Zpos (digits2_pos p)) with (53 + k) in Hp by (unfold k; lia).
    replace (53 + k - 1) with (52 + k) in Hp by lia.
    rewrite !Z.pow_add_r in Hp by lia.
    assert (0 < 2 ^ k) by (apply Z.pow_pos_nonneg; lia).
    unfold t. split.
    - apply Z.div_le_lower_bound; lia.
    - apply Z.div_lt_upper_bound; lia. }
  destruct (shr_spec (shr_record_of_loc (Zpos p) lx) ex k) as (r1 & Hr1 & Hm1);
    [rewrite shr_record_of_loc_m; lia | lia |].
  rewrite shr_record_of_loc_m in Hm1. fold t in Hm1.
  assert (Hs1 : shr_fexp prec emax (Zpos p) ex lx = (r1, ex + k)).
  { unfold shr_fexp. simpl Zdigits2. rewrite fexp_normal by (unfold k in *; lia).
    replace (Zpos (digits2_pos p) + ex - 53 - ex) with k by (unfold k; lia).
    exact Hr1. }
  unfold binary_round_aux. rewrite Hs1.
  pose proof (round_nearest_even_bounds (shr_m r1) (loc_of_shr_record r1)) as Hrne.
  set (m1 := round_nearest_even (shr_m r1) (loc_of_shr_record r1)) in *.
  rewrite Hm1 in Hrne. clearbody m1.
  destruct (Z.eq_dec m1 (2 ^ 53)) as [->|Hne].
  - rewrite shr_fexp_carry by lia. cbn [shr_m].
    change (2 ^ 52) with (Zpos (2 ^ 52)) at 1.
    exists (2 ^ 52)%positive, (ex + k + 1). split; [|split].
    + in_range.
    + change (Zpos (2 ^ 52)) with (2 ^ 52). lia.
    + right. change (Zpos (2 ^ 52)) with (2 ^ 52). lia.
  - destruct m1 as [|q|q]; try lia.
    assert (Hq : Zpos (digits2_pos q) = 53) by (apply digits2_unique; lia).
    rewrite (shr_fexp_53 q (ex + k) Hq) by lia. cbn [shr_m].
    exists q, (ex + k). split; [|split].
    + in_range.
    + lia.
    + left. lia.
Qed.


(** ** The Number of an integer *)

Lemma iter_xO (p k : positive) :
  Zpos (Pos.iter xO p k) = Zpos p * 2 ^ Zpos k.
Proof.
  apply (Pos.iter_ind _ xO p (fun k a => Zpos a = Zpos p * 2 ^ Zpos k)).
  - change (2 ^ 1) with 2. lia.
  - intros q a IH. rewrite Pos2Z.inj_succ, Z.pow_succ_r by lia.
    change (Zpos a~0) with (2 * Zpos a). lia.
Qed.

(** A positive integer below 2^53 is represented exactly, with a
    mantissa of 53 bits. *)
Lemma of_Z_finite (z : Z) :
  1 <= z < 2 ^ 53 ->
  exists M E,
    of_Z z = S754_finite false M E
    /\ Zpos (digits2_pos M) = 53
    /\ -52 <= E <= 0
    /\ Zpos M = z * 2 ^ (- E).
Proof.
  intros Hz. destruct z as [|p|p]; try lia.
  pose proof (digits2_bounds p) as Hp.
  set (d := Zpos (digits2_pos p)) in *.
  assert (Hd : 1 <= d <= 53).
  { split; [unfold d; lia|].
    destruct (Z.le_gt_cases d 53) as [|Hgt]; [assumption|].
    assert (2 ^ 53 <= 2 ^ (d - 1)) by (apply Z.pow_le_mono_r; lia). lia. }
  unfold of_Z, binary_normalize, binary_round, shl_align.
  fold d. rewrite fexp_normal by lia.
  replace (d + 0 - 53) with (d - 53) by lia.
  replace (d - 53 - 0) with (d - 53) by lia.
  destruct (d - 53) as [|j|j] eqn:Hj; try lia.
  - exists p, 0. rewrite binary_round_aux_exact by (fold d; lia).
    repeat split; lia.
  - assert (Hm : Zpos (Pos.iter xO p j) = Zpos p * 2 ^ Zpos j)
      by apply iter_xO.
    assert (Hdm : Zpos (digits2_pos (Pos.iter xO p j)) = 53).
    { apply digits2_unique. rewrite Hm.
      replace 53 with (d + Zpos j) at 2 by lia.
      replace (53 - 1) with (d - 1 + Zpos j) by lia.
      rewrite !Z.pow_add_r by lia.
      assert (0 < 2 ^ Zpos j) by (apply Z.pow_pos_nonneg; lia). nia. }
    exists (Pos.iter xO p j), (Zneg j).
    rewrite binary_round_aux_exact by (try assumption; lia).
    repeat split; try lia; try assumption.
Qed.


(** ** Division *)

Lemma div_eucl_div_mod (a b : Z) : Z.div_eucl a b = (a / b, a mod b).
Proof.
  unfold Z.div, Z.modulo. now destruct (Z.div_eucl a b).
Qed.

(** The core of a division of two 53-bit mantissas. *)
Lemma SFdiv_core_53 (M1 M2 : positive) (e1 e2 : Z) :
  Zpos (digits2_pos M1) = 53 -> Zpos (digits2_pos M2) = 53 ->
  -500 <= e1 - e2 <= 500 ->
  SFdiv_core_binary prec emax (Zpos M1) e1 (Zpos M2) e2
  = (Zpos M1 * 2 ^ 53 / Zpos M2, e1 - e2 - 53,
     new_location (Zpos M2) ((Zpos M1 * 2 ^ 53) mod Zpos M2)).
Proof.
  intros Hd1 Hd2 He. unfold SFdiv_core_binary. simpl Zdigits2.
  rewrite Hd1, Hd2.
  replace (53 + e1 - (53 + e2)) with (e1 - e2) by lia.
  rewrite fexp_normal by lia.
  rewrite Z.min_l by lia.
  replace (e1 - e2 - (e1 - e2 - 53)) with 53 by lia.
  cbv iota beta.
  rewrite Z.shiftl_mul_pow2 by lia.
  now rewrite div_eucl_div_mod.
Qed.

Lemma quotient_53 (M1 M2 : Z) :
  2 ^ 52 <= M1 < 2 ^ 53 -> 2 ^ 52 <= M2 < 2 ^ 53 ->
  2 ^ 52 <= M1 * 2 ^ 53 / M2 < 2 ^ 54.
Proof.
  intros H1 H2. split.
  - apply Z.div_le_lower_bound; lia.
  - apply Z.div_lt_upper_bound; lia.
Qed.


Lemma digits_53_bounds (M : positive) :
  Zpos (digits2_pos M) = 53 -> 2 ^ 52 <= Zpos M < 2 ^ 53.
Proof.
  intros Hd. pose proof (digits2_bounds M) as H. rewrite Hd in H.
  exact H.
Qed.

(** The quotient of two integers [m <= n] is a Number that exceeds 1
    by at most one unit in the last place. *)
Lemma div_le_one (m n : Z) :
  1 <= m <= n -> n < 2 ^ 53 ->
  exists Mq Eq,
    div (of_Z m) (of_Z n) = S754_finite false Mq Eq
    /\ 2 ^ 52 <= Zpos Mq < 2 ^ 53
    /\ -106 <= Eq <= -52
    /\ Zpos Mq <= 2 ^ (- Eq) + 1.
Proof.
  intros Hm Hn.
  destruct (of_Z_finite m) as (M1 & e1 & H1 & Hd1 & He1 & HM1); [lia|].
  destruct (of_Z_finite n) as (M2 & e2 & H2 & Hd2 & He2 & HM2); [lia|].
  pose proof (digits_53_bounds M1 Hd1) as HB1.
  pose proof (digits_53_bounds M2 Hd2) as HB2.
  assert (Hpa : 0 < 2 ^ (- e1)) by (apply Z.pow_pos_nonneg; lia).
  assert (Hpb : 0 < 2 ^ (- e2)) by (apply Z.pow_pos_nonneg; lia).
  (* the smaller integer has the smaller exponent *)
  assert (He : e1 <= e2).
  { destruct (Z.le_gt_cases e1 e2) as [|Hgt]; [assumption|exfalso].
    replace (- e2) with (Z.succ (e1 - e2 - 1) + (- e1)) in HM2 by lia.
    rewrite Z.pow_add_r, Z.pow_succ_r in HM2 by lia.
    assert (0 < 2 ^ (e1 - e2 - 1)) by (apply Z.pow_pos_nonneg; lia).
    assert (m * 2 ^ (- e1) <= n * 2 ^ (- e1)) by nia.
    assert (n * 2 ^ (- e1) <= 2 ^ (e1 - e2 - 1) * (n * 2 ^ (- e1))) by nia.
    lia. }
  unfold div. rewrite H1, H2. unfold SFdiv.
  rewrite SFdiv_core_53 by (try assumption; lia).
  set (q := Zpos M1 * 2 ^ 53 / Zpos M2).
  pose proof (quotient_53 _ _ HB1 HB2) as Hq. fold q in Hq.
  set (e' := e1 - e2 - 53).
  assert (Hqe : q <= 2 ^ (- e')).
  { unfold q. apply Z.div_le_upper_bound; [lia|].
    replace (- e') with (53 + (e2 - e1)) by (unfold e'; lia).
    rewrite Z.pow_add_r by lia.
    assert (Hab : 2 ^ (- e1) = 2 ^ (e2 - e1) * 2 ^ (- e2)).
    { rewrite <- Z.pow_add_r by lia. f_equal. lia. }
    rewrite HM1, HM2, Hab.
    assert (0 < 2 ^ (e2 - e1)) by (apply Z.pow_pos_nonneg; lia).
    nia. }
  destruct q as [|pq|pq] eqn:Eq0; try lia.
  pose proof (digits2_bounds pq) as Hdq.
  set (dq := Zpos (digits2_pos pq)) in *.
  assert (Hdq' : 53 <= dq <= 54).
  { split.
    - destruct (Z.le_gt_cases 53 dq) as [|Hlt]; [assumption|].
      assert (2 ^ dq <= 2 ^ 52) by (apply Z.pow_le_mono_r; lia). lia.
    - destruct (Z.le_gt_cases dq 54) as [|Hgt]; [assumption|].
      assert (2 ^ 54 <= 2 ^ (dq - 1)) by (apply Z.pow_le_mono_r; lia). lia. }
  destruct (binary_round_aux_bounds (xorb false false) pq e'
              (new_location (Zpos M2) ((Zpos M1 * 2 ^ 53) mod Zpos M2)))
    as (Mq & Eq & HR & HMq & Hcase); fold dq; try (unfold e'; lia).
  fold dq in Hcase. set (k := dq - 53) in *.
  exists Mq, Eq. split; [exact HR|]. split; [exact HMq|].
  assert (Hk : 0 < 2 ^ k) by (apply Z.pow_pos_nonneg; unfold k; lia).
  assert (Ht : Zpos pq / 2 ^ k <= 2 ^ (- e' - k)).
  { rewrite Z.pow_sub_r by (unfold k, e'; lia).
    apply Z.div_le_mono; lia. }
  destruct Hcase as [(-> & Hlo & Hhi) | (-> & HMq2 & Ht2)].
  - split; [unfold e', k; lia|].
    replace (- (e' + k)) with (- e' - k) by lia. lia.
  - assert (Hek : 52 < - e' - k).
    { apply (Z.pow_lt_mono_r_iff 2); [lia | unfold e', k; lia | lia]. }
    split; [unfold e', k in *; lia|].
    assert (2 ^ 52 <= 2 ^ (- (e' + k + 1)))
      by (apply Z.pow_le_mono_r; lia).
    lia.
Qed.


(** ** Multiplication by 100 and rounding to an integer *)

Lemma of_Z_100 : of_Z 100 = S754_finite false (100 * 2 ^ 46) (-46).
Proof. reflexivity. Qed.

Lemma Math_round_range (Mr : positive) (Er : Z) :
  Er < 0 -> 2 * Zpos Mr < 201 * 2 ^ (- Er) ->
  exists z, 0 <= z <= 100 /\ Math_round (S754_finite false Mr Er) = of_Z z.
Proof.
  intros HE H. unfold Math_round.
  destruct (Z.leb_spec 0 Er) as [|_]; [lia|].
  assert (HX : 0 < 2 ^ (- Er)) by (apply Z.pow_pos_nonneg; lia).
  set (z := (cond_Zopp false (2 * Zpos Mr) + 2 ^ (- Er)) / 2 ^ (- Er + 1)).
  assert (Hz : 0 <= z < 101).
  { unfold z, cond_Zopp. rewrite Z.pow_add_r by lia. change (2 ^ 1) with 2.
    split.
    - apply Z.div_pos; lia.
    - apply Z.div_lt_upper_bound; lia. }
  exists z. split; [lia|].
  destruct z; [reflexivity | reflexivity | lia].
Qed.

(** A quotient that exceeds 1 by at most one unit in the last place
    gives, times 100 and rounded, an integer from 0 to 100. *)
Lemma round_mul_100 (Mq : positive) (Eq : Z) :
  2 ^ 52 <= Zpos Mq < 2 ^ 53 ->
  -106 <= Eq <= -52 ->
  Zpos Mq <= 2 ^ (- Eq) + 1 ->
  exists z, 0 <= z <= 100
    /\ Math_round (mul (S754_finite false Mq Eq) (of_Z 100)) = of_Z z.
Proof.
  intros HMq HEq Hle. rewrite of_Z_100. unfold mul, SFmul.
  set (C := (100 * 2 ^ 46)%positive).
  assert (HC : Zpos C = 100 * 2 ^ 46) by reflexivity.
  set (P := (Mq * C)%positive).
  assert (HP : Zpos P = Zpos Mq * Zpos C) by reflexivity.
  pose proof (digits2_bounds P) as HdP.
  set (dP := Zpos (digits2_pos P)) in *.
  assert (HdP' : 105 <= dP <= 106).
  { split.
    - destruct (Z.le_gt_cases 105 dP) as [|Hlt]; [assumption|].
      assert (2 ^ dP <= 2 ^ 104) by (apply Z.pow_le_mono_r; lia). nia.
    - destruct (Z.le_gt_cases dP 106) as [|Hgt]; [assumption|].
      assert (2 ^ 106 <= 2 ^ (dP - 1)) by (apply Z.pow_le_mono_r; lia). nia. }
  destruct (binary_round_aux_bounds (xorb false false) P (Eq + -46) loc_Exact)
    as (Mr & Er & HR & HMr & Hcase); fold dP; try lia.
  fold dP in Hcase. set (k := dP - 53) in *.
  rewrite HR. simpl xorb.
  assert (HK : 2 ^ 52 <= 2 ^ k) by (apply Z.pow_le_mono_r; unfold k; lia).
  assert (HtK : 2 ^ k * (Zpos P / 2 ^ k) <= Zpos P)
    by (apply Z.mul_div_le; lia).
  set (t := Zpos P / 2 ^ k) in *.
  set (K := 2 ^ k) in *.
  set (E := 2 ^ (- Eq)) in *.
  assert (HPle : Zpos P <= 100 * (E * 2 ^ 46) + 2 * K).
  { rewrite HP, HC. nia. }
  destruct Hcase as [(HEr & Hlo & Hhi) | (HEr & HMr2 & Ht2)].
  - apply Math_round_range; [unfold k in *; lia|].
    set (X := 2 ^ (- Er)).
    assert (HXK : E * 2 ^ 46 = X * K).
    { unfold E, X, K. rewrite <- !Z.pow_add_r by (unfold k in *; lia).
      f_equal. lia. }
    assert (HX : 2 ^ 45 <= X)
      by (apply Z.pow_le_mono_r; unfold k in *; lia).
    assert (Ht : t <= 100 * X + 2).
    { apply (Z.mul_le_mono_pos_l _ _ K); [lia|]. rewrite HXK in HPle. lia. }
    lia.
  - apply Math_round_range; [unfold k in *; lia|].
    set (X := 2 ^ (- Er)).
    assert (HXK : E * 2 ^ 46 = 2 * (X * K)).
    { unfold E, X, K. rewrite <- !Z.pow_add_r by (unfold k in *; lia).
      rewrite <- Z.pow_succ_r by (unfold k in *; lia).
      f_equal. lia. }
    assert (HX : 2 ^ 44 <= X)
      by (apply Z.pow_le_mono_r; unfold k in *; lia).
    assert (Ht : t <= 200 * X + 2).
    { apply (Z.mul_le_mono_pos_l _ _ K); [lia|]. rewrite HXK in HPle. lia. }
    lia.
Qed.


(** ** The percentage of line 139 *)

Lemma new_location_0 (nb : Z) : new_location nb 0 = loc_Exact.
Proof.
  unfold new_location, new_location_even, new_location_odd.
  now destruct (Z.even nb).
Qed.

(** A positive integer below 2^53 divided by itself is exactly 1. *)
Lemma div_same (n : Z) :
  1 <= n < 2 ^ 53 -> div (of_Z n) (of_Z n) = of_Z 1.
Proof.
  intros Hn.
  destruct (of_Z_finite n Hn) as (M & E & HM & Hd & HE & _).
  unfold div. rewrite HM. unfold SFdiv.
  rewrite SFdiv_core_53 by (try assumption; lia).
  rewrite (Z.mul_comm (Zpos M)).
  rewrite Z.mod_mul, Z.div_mul, new_location_0 by lia.
  replace (E - E - 53) with (-53) by lia.
  reflexivity.
Qed.

Lemma div_zero (n : Z) :
  1 <= n < 2 ^ 53 -> div (of_Z 0) (of_Z n) = of_Z 0.
Proof.
  intros Hn.
  destruct (of_Z_finite n Hn) as (M & E & HM & _).
  unfold div. now rewrite HM.
Qed.

(** All keywords matched: exactly 100. *)
Lemma percentage_all (n : nat) :
  1 <= Z.of_nat n < 2 ^ 53 -> percentage n n = of_Z 100.
Proof.
  intros Hn. unfold percentage, of_nat. now rewrite div_same.
Qed.

(** No keyword matched: exactly 0. *)
Lemma percentage_none (n : nat) :
  1 <= Z.of_nat n < 2 ^ 53 -> percentage 0 n = of_Z 0.
Proof.
  intros Hn. unfold percentage, of_nat.
  change (Z.of_nat 0) with 0. now rewrite div_zero.
Qed.

(** The percentage is an integer from 0 to 100. *)
Lemma percentage_range (m n : nat) :
  (m <= n)%nat -> 1 <= Z.of_nat n < 2 ^ 53 ->
  exists z, 0 <= z <= 100 /\ percentage m n = of_Z z.
Proof.
  intros Hmn Hn. destruct m as [|m].
  - exists 0. split; [lia | now apply percentage_none].
  - unfold percentage, of_nat.
    destruct (div_le_one (Z.of_nat (S m)) (Z.of_nat n))
      as (Mq & Eq & HR & HMq & HEq & Hle); try lia.
    rewrite HR. now apply round_mul_100.
Qed.

End JSNumberFacts.

(* ================================================================== *)
(** * Facts about the scoring step *)
(* ================================================================== *)

Module ScoringFacts.

Import JSStringFacts JSNumberFacts.

Lemma fold_count_step (r : string) (ks : list string) (acc : nat) :
  fold_left (count_step r) ks acc
  = (acc + List.length (filter (includes r) ks))%nat.
Proof.
  revert acc; induction ks as [|k ks IH]; intros acc; simpl.
  - lia.
  - rewrite IH. unfold count_step.
    destruct (includes r k); simpl; lia.
Qed.

(** The loop counts the keywords that occur in the text. *)
Lemma matchCount_of_filter (ks : list string) (r : string) :
  matchCount_of ks r = List.length (filter (includes r) ks).
Proof. unfold matchCount_of. now rewrite fold_count_step. Qed.

Lemma matchCount_of_cons (k : string) (ks : list string) (r : string) :
  matchCount_of (k :: ks) r
  = ((if includes r k then 1 else 0) + matchCount_of ks r)%nat.
Proof.
  rewrite !matchCount_of_filter. simpl. now destruct (includes r k).
Qed.

Lemma matchCount_of_le (ks : list string) (r : string) :
  (matchCount_of ks r <= List.length ks)%nat.
Proof. rewrite matchCount_of_filter. apply filter_length_le. Qed.

Lemma matchCount_of_all (ks : list string) (r : string) :
  (forall k, In k ks -> includes r k = true) ->
  matchCount_of ks r = List.length ks.
Proof.
  intros H. induction ks as [|k ks IH]; [reflexivity|].
  rewrite matchCount_of_cons, (H k) by now left.
  rewrite IH; [reflexivity|].
  intros k' Hk'. apply H. now right.
Qed.

Lemma matchCount_of_none (ks : list string) (r : string) :
  (forall k, In k ks -> includes r k = false) ->
  matchCount_of ks r = 0%nat.
Proof.
  intros H. induction ks as [|k ks IH]; [reflexivity|].
  rewrite matchCount_of_cons, (H k) by now left.
  rewrite IH; [reflexivity|].
  intros k' Hk'. apply H. now right.
Qed.

(** The keyword list of the operation has from 1 to 2^32 - 1
    elements. *)
Lemma keywords_of_length (keywordsText : string) :
  (1 <= Z.of_nat (List.length (keywords_of keywordsText)) < 2 ^ 32)%Z.
Proof.
  unfold keywords_of. rewrite length_map. apply split_length.
Qed.

Lemma keywords_of_length_53 (keywordsText : string) :
  (1 <= Z.of_nat (List.length (keywords_of keywordsText)) < 2 ^ 53)%Z.
Proof. pose proof (keywords_of_length keywordsText). lia. Qed.

(** The score of the operation is an integer from 0 to 100. *)
Lemma ats_score_range (keywordsText resumeText : string) :
  exists z, (0 <= z <= 100)%Z /\ ats_score keywordsText resumeText = of_Z z.
Proof.
  unfold ats_score, score_of. apply percentage_range.
  - apply matchCount_of_le.
  - apply keywords_of_length_53.
Qed.

Lemma ats_score_all (keywordsText resumeText : string) :
  (forall k, In k (keywords_of keywordsText) ->
             includes (toLowerCase resumeText) k = true) ->
  ats_score keywordsText resumeText = of_Z 100.
Proof.
  intros H. unfold ats_score, score_of.
  rewrite matchCount_of_all by assumption.
  apply percentage_all, keywords_of_length_53.
Qed.

Lemma ats_score_none (keywordsText resumeText : string) :
  (forall k, In k (keywords_of keywordsText) ->
             includes (toLowerCase resumeText) k = false) ->
  ats_score keywordsText resumeText = of_Z 0.
Proof.
  intros H. unfold ats_score, score_of.
  rewrite matchCount_of_none by assumption.
  apply percentage_none, keywords_of_length_53.
Qed.

Lemma Number_eqb_eq (x y : Number) : Number_eqb x y = true -> x = y.
Proof.
  destruct x as [a|a| |a m e], y as [b|b| |b m' e']; simpl;
    try discriminate; try reflexivity.
  - intros H. apply Bool.eqb_prop in H. congruence.
  - intros H. apply Bool.eqb_prop in H. congruence.
  - rewrite !andb_true_iff. intros [[Hs Hm] He].
    apply Bool.eqb_prop in Hs. apply Pos.eqb_eq in Hm.
    apply Z.eqb_eq in He. congruence.
Qed.

Lemma flat_map_nil_inv {A B} (f : A -> list B) (l : list A) :
  flat_map f l = [] -> forall x, In x l -> f x = [].
Proof.
  induction l as [|a l IH]; simpl; intros H x Hx; [contradiction|].
  apply app_eq_nil in H as [Ha Hl].
  destruct Hx as [->|Hx]; [assumption | now apply IH].
Qed.

Lemma inexact_percentages_nil (bound m n : nat) :
  inexact_percentages bound = [] ->
  (m <= n)%nat -> (1 <= n <= bound)%nat ->
  percentage m n = of_Z (round_half_up (100 * Z.of_nat m) (Z.of_nat n)).
Proof.
  intros Hnil Hm Hn. apply Number_eqb_eq.
  unfold inexact_percentages in Hnil.
  apply flat_map_nil_inv with (x := n) in Hnil; [|apply in_seq; lia].
  apply flat_map_nil_inv with (x := m) in Hnil; [|apply in_seq; lia].
  destruct (Number_eqb (percentage m n)
              (of_Z (round_half_up (100 * Z.of_nat m) (Z.of_nat n))));
    [reflexivity | discriminate].
Qed.

Lemma inexact_percentages_39 : inexact_percentages 39 = [].
Proof. vm_compute. reflexivity. Qed.

(** Up to 39 keywords, line 139 computes the exact rounded
    percentage. *)
Lemma percentage_exact_39 (m n : nat) :
  (m <= n)%nat -> (1 <= n <= 39)%nat ->
  percentage m n = of_Z (round_half_up (100 * Z.of_nat m) (Z.of_nat n)).
Proof. apply inexact_percentages_nil, inexact_percentages_39. Qed.

Lemma spec_matchCount_eq (keywords : list string) (resumeText : string) :
  spec_matchCount keywords resumeText
  = matchCount_of keywords (toLowerCase resumeText).
Proof. unfold spec_matchCount. now rewrite matchCount_of_filter. Qed.

(** Up to 39 keywords the returned score is the score of the
    specification. *)
Lemma ats_score_spec_39 (keywordsText resumeText : string) :
  (List.length (keywords_of keywordsText) <= 39)%nat ->
  ats_score keywordsText resumeText
  = of_Z (spec_score (keywords_of keywordsText) resumeText).
Proof.
  intros Hlen. unfold ats_score, score_of, spec_score.
  rewrite spec_matchCount_eq. apply percentage_exact_39.
  - apply matchCount_of_le.
  - pose proof (keywords_of_length keywordsText). lia.
Qed.

End ScoringFacts.

(* ================================================================== *)
(** * Facts about the request handler *)
(* ================================================================== *)

Section HandlerFacts.

Variable pdf : list Byte.byte -> option string.
Variable generateContent : string -> option string.

(** A request with a falsy [req.file] or [req.body.jobDescription] is
    answered 400 before any external call. *)
Lemma calculate_ats_rejects (req : request) :
  file req = None \/ truthy (jobDescription req) = false ->
  calculate_ats pdf generateContent req
  = (Send 400 "Resume file and job description are required.", []).
Proof.
  intros H. unfold calculate_ats, try_catch, handler_body.
  destruct (file req) as [buf|].
  - destruct H as [H|H]; [discriminate|]. now rewrite H.
  - reflexivity.
Qed.

(** The success path: one extraction, one generation call, then the
    score of lines 128-139. *)
Lemma calculate_ats_success (req : request) (resumeBuffer : list Byte.byte)
    (jd resumeText keywordsText : string) :
  file req = Some resumeBuffer ->
  jobDescription req = Some jd -> jd <> "" ->
  pdf resumeBuffer = Some resumeText ->
  generateContent (keywordsPrompt jd) = Some keywordsText ->
  calculate_ats pdf generateContent req
  = (Json (ats_score keywordsText resumeText),
     [PdfParse resumeBuffer; GenerateContent (keywordsPrompt jd)]).
Proof.
  intros Hf Hj Hne Hp Hg.
  unfold calculate_ats, try_catch, handler_body.
  rewrite Hf, Hj.
  assert (Ht : truthy (Some jd) = true) by (destruct jd; [congruence|reflexivity]).
  rewrite Ht. unfold bind, await_pdf, await_generateContent, ret.
  now rewrite Hp, Hg.
Qed.

End HandlerFacts.

(* ================================================================== *)
(** * The claims *)
(* ================================================================== *)

Import JSStringFacts JSNumberFacts ScoringFacts.

Lemma filter_length_mono {A} (p q : A -> bool) (l : list A) :
  (forall x, p x = true -> q x = true) ->
  (List.length (filter p l) <= List.length (filter q l))%nat.
Proof.
  intros H. induction l as [|a l IH]; simpl; [lia|].
  destruct (p a) eqn:Hp.
  - rewrite (H a Hp). simpl. lia.
  - destruct (q a); simpl; lia.
Qed.

(** The divisor of line 139 is a finite, non-zero Number. *)
Lemma divisor_finite (keywordsText : string) :
  exists M E,
    of_nat (List.length (keywords_of keywordsText)) = S754_finite false M E.
Proof.
  destruct (of_Z_finite (Z.of_nat (List.length (keywords_of keywordsText)))
              (keywords_of_length_53 keywordsText))
    as (M & E & H & _).
  now exists M, E.
Qed.

Lemma usable_nil_all_empty (keywordsText k : string) :
  usable_keywords keywordsText = [] ->
  In k (keywords_of keywordsText) -> k = "".
Proof.
  unfold usable_keywords. intros Hnil Hin.
  destruct (String.eqb_spec k "") as [|Hne]; [assumption|exfalso].
  assert (Hf : In k (filter (fun kw => negb (String.eqb kw ""))
                       (keywords_of keywordsText))).
  { apply filter_In. split; [assumption|].
    destruct (String.eqb_spec k ""); [contradiction | reflexivity]. }
  rewrite Hnil in Hf. exact Hf.
Qed.

(** C1 (evaluation at the failing input).  For the response
    [keywords40] (40 keywords, 23 of which occur in the resume text
    [a]) the operation returns 57: the quotient 23 / 40 is rounded to
    binary64 before it is multiplied by 100, the product is
    57.49999999999999 and [Math.round] takes it down.  The exact value
    100 * 23 / 40 is the tie 57.5, so the score of the specification,
    round(100 * matchCount / len), is 58; the same formula evaluated in
    binary64 in the order the specification writes it is 58 as well. *)
Theorem C1_tie_rounds_down :
  List.length (keywords_of keywords40) = 40%nat
  /\ matchCount_of (keywords_of keywords40) (toLowerCase "a") = 23%nat
  /\ mul (div (of_nat 23) (of_nat 40)) (of_Z 100)
     = S754_finite false 8092405580431359 (-47)
  /\ ats_score keywords40 "a" = of_Z 57
  /\ spec_score (keywords_of keywords40) "a" = 58%Z
  /\ Math_round (div (mul (of_Z 100) (of_nat 23)) (of_nat 40)) = of_Z 58.
Proof. repeat split; vm_compute; reflexivity. Qed.

(** C2 (counterexample).  The empty response has no usable keyword, yet
    its keyword list is [[""]], the divisor of line 139 is 1, not zero,
    and the score is 100, not NaN: nothing is divided by zero. *)
Lemma C2_empty_response_divisor_one :
  usable_keywords "" = []
  /\ keywords_of "" = [""]
  /\ of_nat (List.length (keywords_of "")) = of_Z 1
  /\ of_nat (List.length (keywords_of "")) <> of_Z 0
  /\ ats_score "" "Python developer" = of_Z 100
  /\ ats_score "" "Python developer" <> NaN.
Proof. repeat split; vm_compute; (reflexivity || discriminate). Qed.

(** C2 (amended).  The division of line 139 has no guard: on an empty
    keyword list the scoring step evaluates 0 / 0 and yields NaN.  The
    keyword list the operation builds is never empty, so for every
    response the divisor is a non-zero Number; a response with no usable
    keyword yields only empty keywords, each of which matches, and the
    score 100. *)
Theorem C2_unguarded_division_never_by_zero (keywordsText resumeText : string) :
  score_of [] resumeText = NaN
  /\ (exists M E,
        of_nat (List.length (keywords_of keywordsText))
        = S754_finite false M E)
  /\ (usable_keywords keywordsText = [] ->
      ats_score keywordsText resumeText = of_Z 100).
Proof.
  split; [reflexivity|]. split; [apply divisor_finite|].
  intros Hnil. apply ats_score_all. intros k Hk.
  rewrite (usable_nil_all_empty keywordsText k Hnil Hk).
  apply includes_empty.
Qed.

Lemma C2_unguarded_division_witness :
  usable_keywords " , " = []
  /\ ats_score " , " "Python developer" = of_Z 100.
Proof.
  split; [reflexivity|].
  apply (C2_unguarded_division_never_by_zero " , " "Python developer").
  reflexivity.
Defined.

(** C3.  A request without the resume file or without the job
    description is answered with status 400 and the message that the
    resume file and job description are required, and no external call
    is made: neither the text extractor nor the generation service. *)
Theorem C3_missing_input_rejected
    (pdf : list Byte.byte -> option string)
    (generateContent : string -> option string) (req : request) :
  file req = None \/ jobDescription req = None ->
  calculate_ats pdf generateContent req
  = (Send 400 "Resume file and job description are required.", []).
Proof.
  intros [H|H]; apply calculate_ats_rejects; [now left|right].
  now rewrite H.
Qed.

Lemma C3_missing_input_witness :
  calculate_ats (fun _ => Some "Python developer") (fun _ => Some "python")
    {| file := None; jobDescription := Some "Data engineer" |}
  = (Send 400 "Resume file and job description are required.", []).
Proof.
  apply C3_missing_input_rejected. left. reflexivity.
Defined.

(** C4.  For every valid input (a resume file whose text is extracted,
    a job description for which the generation service answers) the
    operation responds with a score that is an integer from 0 to 100. *)
Theorem C4_score_in_range
    (pdf : list Byte.byte -> option string)
    (generateContent : string -> option string) (req : request)
    (resumeBuffer : list Byte.byte) (jd resumeText keywordsText : string) :
  file req = Some resumeBuffer ->
  jobDescription req = Some jd -> jd <> "" ->
  pdf resumeBuffer = Some resumeText ->
  generateContent (keywordsPrompt jd) = Some keywordsText ->
  exists z : Z,
    (0 <= z <= 100)%Z
    /\ fst (calculate_ats pdf generateContent req) = Json (of_Z z).
Proof.
  intros Hf Hj Hne Hp Hg.
  rewrite (calculate_ats_success pdf generateContent req resumeBuffer jd
             resumeText keywordsText Hf Hj Hne Hp Hg).
  destruct (ats_score_range keywordsText resumeText) as (z & Hz & Hs).
  exists z. split; [assumption|]. simpl. now rewrite Hs.
Qed.

Lemma C4_score_in_range_witness :
  exists z : Z,
    (0 <= z <= 100)%Z
    /\ fst (calculate_ats
              (fun _ => Some "Python and SQL developer")
              (fun _ => Some "Python, SQL, Communication")
              {| file := Some []; jobDescription := Some "Data engineer" |})
       = Json (of_Z z).
Proof.
  apply (C4_score_in_range _ _ _ [] "Data engineer"
           "Python and SQL developer" "Python, SQL, Communication");
    try reflexivity.
  discriminate.
Defined.

(** C5.  When every keyword of the response occurs in the lower-cased
    resume text the score is 100, and when none occurs it is 0 (the
    keyword list of the operation is never empty). *)
Theorem C5_all_or_none (keywordsText resumeText : string) :
  ((forall k, In k (keywords_of keywordsText) ->
              includes (toLowerCase resumeText) k = true) ->
   ats_score keywordsText resumeText = of_Z 100)
  /\ ((forall k, In k (keywords_of keywordsText) ->
                 includes (toLowerCase resumeText) k = false) ->
      ats_score keywordsText resumeText = of_Z 0).
Proof.
  split; [apply ats_score_all | apply ats_score_none].
Qed.

Lemma C5_all_or_none_witness :
  ats_score "Python, SQL" "Python and SQL developer" = of_Z 100
  /\ ats_score "Python, SQL" "Java developer" = of_Z 0.
Proof.
  split.
  - apply (proj1 (C5_all_or_none "Python, SQL" "Python and SQL developer")).
    intros k [<-|[<-|[]]]; reflexivity.
  - apply (proj2 (C5_all_or_none "Python, SQL" "Java developer")).
    intros k [<-|[<-|[]]]; reflexivity.
Defined.

Lemma includes_false_spec (s t : string) :
  includes s t = false <-> ~ exists a b, s = a ++ t ++ b.
Proof.
  rewrite <- includes_spec. destruct (includes s t); split;
    congruence || (intros G; exfalso; now apply G).
Qed.

(** The score of a single keyword: 100 when it occurs in the
    lower-cased resume text, 0 when it does not. *)
Lemma score_of_single (keyword resumeText : string) :
  score_of [keyword] resumeText
  = if includes (toLowerCase resumeText) keyword then of_Z 100 else of_Z 0.
Proof.
  unfold score_of. rewrite matchCount_of_cons.
  now destruct (includes (toLowerCase resumeText) keyword).
Qed.



(** C7.  Matching is literal substring containment and nothing else:
    the loop counts a keyword exactly when the text it is given is some
    text, then the keyword, then some text, and the response [script]
    scores 100 exactly when the lower-cased resume text contains
    [script] in that sense and 0 exactly when it does not.  It is not
    whole-word matching: a resume containing [typescript] matches the
    keyword [script] and scores 100 on it. *)
Theorem C7_substring_match (resumeText text keyword : string)
    (matchCount : nat) :
  includes resumeText "typescript" = true ->
  includes (toLowerCase resumeText) "script" = true
  /\ matchCount_of (keywords_of "script") (toLowerCase resumeText) = 1%nat
  /\ ats_score "script" resumeText = of_Z 100
  /\ (count_step text matchCount keyword = S matchCount
      <-> exists a b, text = a ++ keyword ++ b)
  /\ (count_step text matchCount keyword = matchCount
      <-> ~ exists a b, text = a ++ keyword ++ b)
  /\ (ats_score "script" text = of_Z 100
      <-> exists a b, toLowerCase text = a ++ "script" ++ b)
  /\ (ats_score "script" text = of_Z 0
      <-> ~ exists a b, toLowerCase text = a ++ "script" ++ b).
Proof.
  intros H. apply includes_toLowerCase in H.
  assert (Hs : includes (toLowerCase resumeText) "script" = true).
  { apply includes_trans with (t := toLowerCase "typescript");
      [assumption | reflexivity]. }
  split; [assumption|]. split.
  { change (keywords_of "script") with ["script"].
    now rewrite matchCount_of_cons, Hs. }
  split.
  { apply ats_score_all. intros k [<-|[]]. exact Hs. }
  assert (Hscore : ats_score "script" text = score_of ["script"] text)
    by reflexivity.
  rewrite Hscore, score_of_single. unfold count_step.
  rewrite <- !includes_false_spec, <- !includes_spec.
  assert (Hne : of_Z 100 <> of_Z 0) by discriminate.
  destruct (includes text keyword);
    destruct (includes (toLowerCase text) "script");
    repeat split; intros G; try reflexivity; congruence || lia.
Qed.

Lemma C7_substring_match_witness :
  includes (toLowerCase "typescript and react") "script" = true
  /\ matchCount_of (keywords_of "script")
       (toLowerCase "typescript and react") = 1%nat
  /\ ats_score "script" "typescript and react" = of_Z 100
  /\ (count_step "java and sql" 0 "script" = 1%nat
      <-> exists a b, "java and sql" = a ++ "script" ++ b)
  /\ (count_step "java and sql" 0 "script" = 0%nat
      <-> ~ exists a b, "java and sql" = a ++ "script" ++ b)
  /\ (ats_score "script" "java and sql" = of_Z 100
      <-> exists a b, toLowerCase "java and sql" = a ++ "script" ++ b)
  /\ (ats_score "script" "java and sql" = of_Z 0
      <-> ~ exists a b, toLowerCase "java and sql" = a ++ "script" ++ b).
Proof.
  apply (C7_substring_match "typescript and react" "java and sql" "script" 0).
  reflexivity.
Defined.

(** C8.  [matchCount] counts the keywords that occur in the text: it
    lies between 0 and the length of the keyword list; a keyword adds
    one when it occurs and nothing otherwise, however often it occurs
    (it adds one to a text in which it occurs twice); and a keyword
    repeated [n] times in the list adds [n] when it occurs. *)
Theorem C8_presence_count (keywords : list string)
    (resumeTextLower keyword a b c : string) (n : nat) :
  (0 <= matchCount_of keywords resumeTextLower <= List.length keywords)%nat
  /\ matchCount_of keywords resumeTextLower
     = List.length (filter (includes resumeTextLower) keywords)
  /\ matchCount_of (keyword :: keywords) resumeTextLower
     = ((if includes resumeTextLower keyword then 1 else 0)
        + matchCount_of keywords resumeTextLower)%nat
  /\ matchCount_of [keyword] (a ++ keyword ++ b ++ keyword ++ c) = 1%nat
  /\ matchCount_of (repeat keyword n) resumeTextLower
     = (if includes resumeTextLower keyword then n else 0)%nat.
Proof.
  split; [split; [lia | apply matchCount_of_le]|].
  split; [apply matchCount_of_filter|].
  split; [apply matchCount_of_cons|].
  split.
  - rewrite matchCount_of_cons.
    assert (H : includes (a ++ keyword ++ b ++ keyword ++ c) keyword = true).
    { apply includes_spec. now exists a, (b ++ keyword ++ c). }
    now rewrite H.
  - induction n as [|n IH]; simpl repeat.
    + now destruct (includes resumeTextLower keyword).
    + rewrite matchCount_of_cons, IH.
      now destruct (includes resumeTextLower keyword).
Qed.

(** C9.  With the keyword list [python, sql, communication] and a
    resume text that contains [python] and [sql] but not
    [communication] the score is 67; with the single keyword
    [leadership] and a resume text that does not contain it the score
    is 0. *)
Theorem C9_scenarios (resumeText resumeText' : string) :
  includes (toLowerCase resumeText) "python" = true ->
  includes (toLowerCase resumeText) "sql" = true ->
  includes (toLowerCase resumeText) "communication" = false ->
  includes (toLowerCase resumeText') "leadership" = false ->
  keywords_of "python,sql,communication" = ["python"; "sql"; "communication"]
  /\ score_of ["python"; "sql"; "communication"] resumeText = of_Z 67
  /\ keywords_of "leadership" = ["leadership"]
  /\ score_of ["leadership"] resumeText' = of_Z 0.
Proof.
  intros Hp Hs Hc Hl.
  split; [reflexivity|]. split; [|split; [reflexivity|]].
  - unfold score_of. rewrite !matchCount_of_cons, Hp, Hs, Hc. reflexivity.
  - unfold score_of. rewrite !matchCount_of_cons, Hl. reflexivity.
Qed.

Lemma C9_scenarios_witness :
  keywords_of "python,sql,communication" = ["python"; "sql"; "communication"]
  /\ score_of ["python"; "sql"; "communication"] "Python and SQL developer"
     = of_Z 67
  /\ keywords_of "leadership" = ["leadership"]
  /\ score_of ["leadership"] "Java developer" = of_Z 0.
Proof.
  apply (C9_scenarios "Python and SQL developer" "Java developer");
    reflexivity.
Defined.

(** C10.  Splitting yields at least one element, so the keyword list of
    the operation is never empty and the divisor of line 139 is a
    non-zero Number; the empty response yields the list [[""]], the
    empty keyword occurs in every resume text and the score is then
    100; the empty elements of a doubled or trailing comma are keywords
    too, and every empty keyword counts as a match. *)
Theorem C10_never_empty (keywordsText resumeText : string) :
  keywords_of keywordsText <> []
  /\ (exists M E,
        of_nat (List.length (keywords_of keywordsText))
        = S754_finite false M E)
  /\ keywords_of "" = [""]
  /\ includes (toLowerCase resumeText) "" = true
  /\ ats_score "" resumeText = of_Z 100
  /\ keywords_of "python,,sql," = ["python"; ""; "sql"; ""]
  /\ (List.length (filter (String.eqb "") (keywords_of keywordsText))
      <= matchCount_of (keywords_of keywordsText) (toLowerCase resumeText))%nat.
Proof.
  split.
  { intros Hnil. pose proof (keywords_of_length keywordsText) as H.
    rewrite Hnil in H. simpl in H. lia. }
  split; [apply divisor_finite|].
  split; [reflexivity|].
  split; [apply includes_empty|].
  split.
  { apply ats_score_all. intros k [<-|[]]. apply includes_empty. }
  split; [reflexivity|].
  rewrite matchCount_of_filter. apply filter_length_mono.
  intros k Hk. apply String.eqb_eq in Hk. subst k. apply includes_empty.
Qed.

(* ================================================================== *)
(** * Further properties: the keyword list of line 128 *)
(* ================================================================== *)

Module KeywordFacts.

(** ** Characters *)

Lemma lowerChar_idem (c : ascii) : lowerChar (lowerChar c) = lowerChar c.
Proof. destruct c as [[] [] [] [] [] [] [] []]; reflexivity. Qed.

Lemma isWhiteSpace_lowerChar (c : ascii) :
  isWhiteSpace (lowerChar c) = isWhiteSpace c.
Proof. destruct c as [[] [] [] [] [] [] [] []]; reflexivity. Qed.

Lemma eqb_comma_lowerChar (c : ascii) :
  Ascii.eqb (lowerChar c) "," = Ascii.eqb c ",".
Proof. destruct c as [[] [] [] [] [] [] [] []]; reflexivity. Qed.

(** ** Lower-casing *)

Lemma toLowerCase_idem (s : string) :
  toLowerCase (toLowerCase s) = toLowerCase s.
Proof.
  induction s as [|c s IH]; simpl; [reflexivity|].
  now rewrite lowerChar_idem, IH.
Qed.

Lemma count_comma_toLowerCase (s : string) :
  count_char "," (toLowerCase s) = count_char "," s.
Proof.
  induction s as [|c s IH]; simpl; [reflexivity|].
  now rewrite eqb_comma_lowerChar, IH.
Qed.

(** ** Trimming *)

Lemma trimStart_toLowerCase (s : string) :
  trimStart (toLowerCase s) = toLowerCase (trimStart s).
Proof.
  induction s as [|c s IH]; simpl; [reflexivity|].
  rewrite isWhiteSpace_lowerChar. now destruct (isWhiteSpace c).
Qed.

Lemma trimEnd_toLowerCase (s : string) :
  trimEnd (toLowerCase s) = toLowerCase (trimEnd s).
Proof.
  induction s as [|c s IH]; simpl; [reflexivity|].
  rewrite IH, isWhiteSpace_lowerChar.
  destruct (trimEnd s); simpl; [now destruct (isWhiteSpace c) | reflexivity].
Qed.

Lemma trim_toLowerCase (s : string) :
  trim (toLowerCase s) = toLowerCase (trim s).
Proof. unfold trim. now rewrite trimStart_toLowerCase, trimEnd_toLowerCase. Qed.

Lemma trimStart_length (s : string) :
  (String.length (trimStart s) <= String.length s)%nat.
Proof.
  induction s as [|c s IH]; simpl; [lia|].
  destruct (isWhiteSpace c); simpl; lia.
Qed.

(** A text that starts with white space is changed by [trimStart]. *)
Lemma trimStart_fixed (c : ascii) (s : string) :
  trimStart (String c s) = String c s -> isWhiteSpace c = false.
Proof.
  simpl. destruct (isWhiteSpace c); [|reflexivity].
  intros H. pose proof (trimStart_length s) as Hl. rewrite H in Hl.
  simpl in Hl. lia.
Qed.

Lemma trimStart_idem (s : string) : trimStart (trimStart s) = trimStart s.
Proof.
  induction s as [|c s IH]; simpl; [reflexivity|].
  destruct (isWhiteSpace c) eqn:Hc; [assumption|].
  simpl. now rewrite Hc.
Qed.

Lemma trimEnd_idem (s : string) : trimEnd (trimEnd s) = trimEnd s.
Proof.
  induction s as [|c s IH]; simpl; [reflexivity|].
  destruct (trimEnd s) as [|x t] eqn:Ht.
  - destruct (isWhiteSpace c) eqn:Hc; simpl; [reflexivity | now rewrite Hc].
  - change (trimEnd (String c (String x t)))
      with (match trimEnd (String x t) with
            | EmptyString => if isWhiteSpace c then EmptyString
                             else String c EmptyString
            | u => String c u
            end).
    now rewrite IH.
Qed.

Lemma trimStart_trimEnd (s : string) :
  trimStart s = s -> trimStart (trimEnd s) = trimEnd s.
Proof.
  destruct s as [|c s]; [reflexivity|]. intros H.
  apply trimStart_fixed in H.
  simpl trimEnd. destruct (trimEnd s); rewrite ?H; simpl; now rewrite H.
Qed.

(** A trimmed text is left as it is by [trim]. *)
Lemma trim_idem (s : string) : trim (trim s) = trim s.
Proof.
  unfold trim.
  rewrite (trimStart_trimEnd (trimStart s)) by apply trimStart_idem.
  apply trimEnd_idem.
Qed.

Lemma count_char_trimStart (c : ascii) (s : string) :
  (count_char c (trimStart s) <= count_char c s)%nat.
Proof.
  induction s as [|x s IH]; simpl; [lia|].
  destruct (isWhiteSpace x); simpl; lia.
Qed.

Lemma count_char_trimEnd (c : ascii) (s : string) :
  (count_char c (trimEnd s) <= count_char c s)%nat.
Proof.
  induction s as [|x s IH]; simpl; [lia|].
  destruct (trimEnd s) as [|y t].
  - destruct (isWhiteSpace x); simpl; lia.
  - simpl in *. lia.
Qed.

Lemma count_char_trim (c : ascii) (s : string) :
  (count_char c (trim s) <= count_char c s)%nat.
Proof.
  unfold trim. pose proof (count_char_trimEnd c (trimStart s)).
  pose proof (count_char_trimStart c s). lia.
Qed.

(** ** Splitting *)

Lemma split_pieces_length (sep : ascii) (s : string) :
  List.length (snd (split_pieces sep s)) = count_char sep s.
Proof.
  induction s as [|c s IH]; simpl; [reflexivity|].
  destruct (split_pieces sep s) as [p ps]. simpl in IH.
  destruct (Ascii.eqb c sep); simpl; lia.
Qed.

Lemma split_pieces_no_sep (sep : ascii) (s : string) :
  count_char sep (fst (split_pieces sep s)) = 0%nat
  /\ forall p, In p (snd (split_pieces sep s)) -> count_char sep p = 0%nat.
Proof.
  induction s as [|c s [IH1 IH2]]; simpl; [split; [reflexivity|contradiction]|].
  destruct (split_pieces sep s) as [p ps]. simpl in IH1, IH2.
  destruct (Ascii.eqb c sep) eqn:Hc; simpl.
  - split; [reflexivity|]. intros q [<-|Hq]; auto.
  - rewrite Hc. split; [assumption|auto].
Qed.

Lemma take_all (lim : N) (l : list string) :
  (N.of_nat (List.length l) <= lim)%N -> take lim l = l.
Proof.
  revert lim; induction l as [|x l IH]; intros lim H; simpl; [reflexivity|].
  simpl List.length in H.
  destruct (N.eqb_spec lim 0) as [->|Hn]; [lia|].
  rewrite IH; [reflexivity | lia].
Qed.

Lemma take_In (lim : N) (l : list string) (x : string) :
  In x (take lim l) -> In x l.
Proof.
  revert lim; induction l as [|y l IH]; intros lim; simpl; [auto|].
  destruct (lim =? 0)%N; simpl; [contradiction|].
  intros [H|H]; [now left | right; eauto].
Qed.

Lemma take_map (f : string -> string) (lim : N) (l : list string) :
  take lim (map f l) = map f (take lim l).
Proof.
  revert lim; induction l as [|y l IH]; intros lim; simpl; [reflexivity|].
  destruct (lim =? 0)%N; simpl; [reflexivity | now rewrite IH].
Qed.

Lemma split_pieces_toLowerCase (s : string) :
  split_pieces "," (toLowerCase s)
  = (toLowerCase (fst (split_pieces "," s)),
     map toLowerCase (snd (split_pieces "," s))).
Proof.
  induction s as [|c s IH]; simpl; [reflexivity|].
  rewrite IH, eqb_comma_lowerChar.
  destruct (split_pieces "," s) as [p ps]. simpl.
  now destruct (Ascii.eqb c ",").
Qed.

Lemma split_toLowerCase (s : string) :
  split "," (toLowerCase s) = map toLowerCase (split "," s).
Proof.
  unfold split. rewrite split_pieces_toLowerCase.
  destruct (split_pieces "," s) as [p ps]. simpl fst. simpl snd.
  now rewrite <- take_map.
Qed.

(** The keywords depend on the lower-cased response only. *)
Lemma keywords_of_lower (keywordsText : string) :
  keywords_of keywordsText = map trim (split "," (toLowerCase keywordsText)).
Proof.
  unfold keywords_of. rewrite split_toLowerCase, map_map.
  apply map_ext. intros kw. symmetry. apply trim_toLowerCase.
Qed.

End KeywordFacts.

Import KeywordFacts.

(** X1.  The keyword list has one element more than the response has
    commas (as long as that stays below the limit of [split]): a
    trailing or doubled comma adds a keyword, a response without comma
    is one keyword. *)
Theorem keyword_count (keywordsText : string) :
  (Z.of_nat (count_char "," keywordsText) < 2 ^ 32 - 1)%Z ->
  List.length (keywords_of keywordsText)
  = S (count_char "," keywordsText).
Proof.
  intros H. unfold keywords_of, split. rewrite length_map.
  pose proof (split_pieces_length "," keywordsText) as Hl.
  destruct (split_pieces "," keywordsText) as [p ps]. simpl in Hl.
  rewrite take_all; [simpl; now rewrite Hl|].
  simpl List.length. unfold split_limit. rewrite Hl.
  change (2 ^ 32 - 1)%Z with 4294967295%Z in H. lia.
Qed.

Lemma keyword_count_witness :
  List.length (keywords_of "Python, SQL,,Leadership,") = 5%nat.
Proof.
  apply (keyword_count "Python, SQL,,Leadership,"). vm_compute. reflexivity.
Defined.

(** X2.  Every keyword of the operation is normalised: it contains no
    comma, has no white space at either end and no upper-case letter,
    so trimming or lower-casing it again changes nothing. *)
Theorem keywords_are_normalised (keywordsText keyword : string) :
  In keyword (keywords_of keywordsText) ->
  count_char "," keyword = 0%nat
  /\ trim keyword = keyword
  /\ toLowerCase keyword = keyword.
Proof.
  unfold keywords_of. intros H. apply in_map_iff in H as (kw & <- & Hkw).
  split; [|split].
  - rewrite count_comma_toLowerCase.
    assert (Hkw0 : count_char "," kw = 0%nat).
    { unfold split in Hkw.
      pose proof (split_pieces_no_sep "," keywordsText) as [H1 H2].
      destruct (split_pieces "," keywordsText) as [p ps]. simpl in H1, H2.
      apply take_In in Hkw. destruct Hkw as [<-|Hkw]; auto. }
    pose proof (count_char_trim "," kw). lia.
  - now rewrite trim_toLowerCase, trim_idem.
  - apply toLowerCase_idem.
Qed.

Lemma keywords_are_normalised_witness :
  count_char "," "team work" = 0%nat
  /\ trim "team work" = "team work"
  /\ toLowerCase "team work" = "team work".
Proof.
  apply (keywords_are_normalised "Python,  Team Work ,SQL" "team work").
  right. left. reflexivity.
Defined.

(** X3.  The score is insensitive to letter case in both texts: two
    responses that differ only in case and two resume texts that differ
    only in case get the same score. *)
Theorem score_case_insensitive (keywordsText keywordsText' resumeText
    resumeText' : string) :
  toLowerCase keywordsText = toLowerCase keywordsText' ->
  toLowerCase resumeText = toLowerCase resumeText' ->
  ats_score keywordsText resumeText = ats_score keywordsText' resumeText'.
Proof.
  intros Hk Hr. unfold ats_score, score_of.
  now rewrite (keywords_of_lower keywordsText),
    (keywords_of_lower keywordsText'), Hk, Hr.
Qed.

Lemma score_case_insensitive_witness :
  ats_score "PYTHON, sql, Docker" "Senior Python developer, MySQL"
  = ats_score "python, SQL, docker" "SENIOR PYTHON DEVELOPER, mysql".
Proof.
  apply score_case_insensitive; reflexivity.
Defined.

Lemma matchCount_of_perm (ks ks' : list string) (r : string) :
  Permutation ks ks' -> matchCount_of ks r = matchCount_of ks' r.
Proof.
  intros H. induction H as [|k l l' H IH|k k' l|l l' l'' H1 IH1 H2 IH2].
  - reflexivity.
  - now rewrite !matchCount_of_cons, IH.
  - rewrite !matchCount_of_cons. lia.
  - congruence.
Qed.

(** X4.  The order of the keywords does not matter: a rearranged
    keyword list gets the same score. *)
Theorem score_order_independent (keywords keywords' : list string)
    (resumeText : string) :
  Permutation keywords keywords' ->
  score_of keywords resumeText = score_of keywords' resumeText.
Proof.
  intros H. unfold score_of.
  now rewrite (matchCount_of_perm _ _ _ H), (Permutation_length H).
Qed.

Lemma score_order_independent_witness :
  score_of ["python"; "sql"; "docker"] "Python and SQL"
  = score_of ["docker"; "python"; "sql"] "Python and SQL".
Proof.
  apply score_order_independent.
  apply perm_trans with (l' := ["python"; "docker"; "sql"]).
  - apply perm_skip. apply perm_swap.
  - apply perm_swap.
Defined.

Lemma append_length (a b : string) :
  String.length (a ++ b) = (String.length a + String.length b)%nat.
Proof. induction a as [|x a IH]; simpl; [reflexivity | now rewrite IH]. Qed.

Lemma includes_length (s t : string) :
  includes s t = true -> (String.length t <= String.length s)%nat.
Proof.
  rewrite includes_spec. intros (a & b & ->).
  rewrite !append_length. lia.
Qed.

(** X5.  A resume whose lower-cased text is shorter than every keyword
    scores 0; so an empty resume text (a document without extractable
    text) scores 0 as soon as no keyword is empty. *)
Theorem short_resume_scores_zero (keywordsText resumeText : string) :
  (forall keyword, In keyword (keywords_of keywordsText) ->
                   (String.length (toLowerCase resumeText)
                    < String.length keyword)%nat) ->
  ats_score keywordsText resumeText = of_Z 0.
Proof.
  intros H. apply ats_score_none. intros k Hk.
  destruct (includes (toLowerCase resumeText) k) eqn:Hi; [|reflexivity].
  apply includes_length in Hi. specialize (H k Hk). lia.
Qed.

Lemma short_resume_scores_zero_witness :
  ats_score "Python, SQL" "" = of_Z 0.
Proof.
  apply short_resume_scores_zero.
  intros k [<-|[<-|[]]]; simpl; lia.
Defined.

(* ================================================================== *)
(** * Further properties: the outcomes of the handler *)
(* ================================================================== *)

Section HandlerOutcomes.

Variable pdf : list Byte.byte -> option string.
Variable generateContent : string -> option string.

Lemma truthy_inv (field : option string) :
  truthy field = true -> exists jd, field = Some jd /\ jd <> "".
Proof.
  destruct field as [[|c jd]|]; simpl; try discriminate.
  intros _. exists (String c jd). split; [reflexivity | discriminate].
Qed.

(** The four outcomes of the handler. *)
Lemma calculate_ats_cases (req : request) :
  (calculate_ats pdf generateContent req
   = (Send 400 "Resume file and job description are required.", [])
   /\ (file req = None \/ truthy (jobDescription req) = false))
  \/ exists resumeBuffer jd,
       file req = Some resumeBuffer /\ jobDescription req = Some jd
       /\ jd <> ""
       /\ ((pdf resumeBuffer = None
            /\ calculate_ats pdf generateContent req
               = (Send 500 "An error occurred while calculating the ATS score.",
                  [PdfParse resumeBuffer]))
           \/ exists resumeText,
                pdf resumeBuffer = Some resumeText
                /\ ((generateContent (keywordsPrompt jd) = None
                     /\ calculate_ats pdf generateContent req
                        = (Send 500 "An error occurred while calculating the ATS score.",
                           [PdfParse resumeBuffer;
                            GenerateContent (keywordsPrompt jd)]))
                    \/ exists keywordsText,
                         generateContent (keywordsPrompt jd) = Some keywordsText
                         /\ calculate_ats pdf generateContent req
                            = (Json (ats_score keywordsText resumeText),
                               [PdfParse resumeBuffer;
                                GenerateContent (keywordsPrompt jd)]))).
Proof.
  destruct (file req) as [buf|] eqn:Hf.
  2:{ left. split; [|now left].
      apply calculate_ats_rejects. now left. }
  destruct (truthy (jobDescription req)) eqn:Ht.
  2:{ left. split; [|now right].
      apply calculate_ats_rejects. now right. }
  right. destruct (truthy_inv _ Ht) as (jd & Hj & Hne).
  exists buf, jd. repeat (split; [assumption || reflexivity|]).
  destruct (pdf buf) as [text|] eqn:Hp.
  - right. exists text. split; [reflexivity|].
    destruct (generateContent (keywordsPrompt jd)) as [kt|] eqn:Hg.
    + right. exists kt. split; [reflexivity|].
      now apply calculate_ats_success.
    + left. split; [reflexivity|].
      unfold calculate_ats, try_catch, handler_body.
      rewrite Hf, Ht, Hj.
      unfold bind, await_pdf, await_generateContent, ret.
      now rewrite Hp, Hg.
  - left. split; [reflexivity|].
    unfold calculate_ats, try_catch, handler_body.
    rewrite Hf, Ht. unfold bind, await_pdf. now rewrite Hp.
Qed.

End HandlerOutcomes.

(** X6.  When the text of the resume cannot be extracted the request is
    answered with status 500 and the generation service is never
    called. *)
Theorem extraction_failure_stops
    (pdf : list Byte.byte -> option string)
    (generateContent : string -> option string) (req : request)
    (resumeBuffer : list Byte.byte) :
  file req = Some resumeBuffer ->
  truthy (jobDescription req) = true ->
  pdf resumeBuffer = None ->
  calculate_ats pdf generateContent req
  = (Send 500 "An error occurred while calculating the ATS score.",
     [PdfParse resumeBuffer]).
Proof.
  intros Hf Ht Hp.
  destruct (calculate_ats_cases pdf generateContent req)
    as [[_ [H|H]] | (buf & jd & Hf' & Hj & Hne & H)]; try congruence.
  rewrite Hf in Hf'. injection Hf' as <-.
  destruct H as [[_ H] | (text & Hp' & _)]; congruence.
Qed.

Lemma extraction_failure_stops_witness :
  calculate_ats (fun _ => None) (fun _ => Some "python, sql")
    {| file := Some []; jobDescription := Some "Data engineer" |}
  = (Send 500 "An error occurred while calculating the ATS score.",
     [PdfParse []]).
Proof.
  apply extraction_failure_stops; reflexivity.
Defined.

(** X7.  When the generation service fails the request is answered
    with status 500 and no score, after one extraction and one
    generation call. *)
Theorem generation_failure_reported
    (pdf : list Byte.byte -> option string)
    (generateContent : string -> option string) (req : request)
    (resumeBuffer : list Byte.byte) (jd resumeText : string) :
  file req = Some resumeBuffer ->
  jobDescription req = Some jd -> jd <> "" ->
  pdf resumeBuffer = Some resumeText ->
  generateContent (keywordsPrompt jd) = None ->
  calculate_ats pdf generateContent req
  = (Send 500 "An error occurred while calculating the ATS score.",
     [PdfParse resumeBuffer; GenerateContent (keywordsPrompt jd)]).
Proof.
  intros Hf Hj Hne Hp Hg.
  destruct (calculate_ats_cases pdf generateContent req)
    as [[_ [H|H]] | (buf & jd' & Hf' & Hj' & _ & H)].
  - congruence.
  - rewrite Hj in H. destruct jd; [congruence | discriminate].
  - rewrite Hf in Hf'. injection Hf' as <-.
    rewrite Hj in Hj'. injection Hj' as <-.
    destruct H as [[H _] | (text & Hp' & [[_ H] | (kt & Hg' & _)])];
      congruence.
Qed.

Lemma generation_failure_reported_witness :
  calculate_ats (fun _ => Some "Python developer") (fun _ => None)
    {| file := Some []; jobDescription := Some "Data engineer" |}
  = (Send 500 "An error occurred while calculating the ATS score.",
     [PdfParse []; GenerateContent (keywordsPrompt "Data engineer")]).
Proof.
  apply (generation_failure_reported _ _ _ [] "Data engineer"
           "Python developer"); try reflexivity.
  discriminate.
Defined.

(** X8.  Whatever the collaborators do, a request leads to no call, to
    one extraction, or to one extraction followed by one generation
    call; the prompt of that call is built from the job description of
    the request alone, so the resume text is never sent to the
    generation service. *)
Theorem call_discipline
    (pdf : list Byte.byte -> option string)
    (generateContent : string -> option string) (req : request) :
  snd (calculate_ats pdf generateContent req) = []
  \/ (exists resumeBuffer,
        file req = Some resumeBuffer
        /\ snd (calculate_ats pdf generateContent req)
           = [PdfParse resumeBuffer])
  \/ (exists resumeBuffer jd,
        file req = Some resumeBuffer /\ jobDescription req = Some jd
        /\ pdf resumeBuffer <> None
        /\ snd (calculate_ats pdf generateContent req)
           = [PdfParse resumeBuffer; GenerateContent (keywordsPrompt jd)]).
Proof.
  destruct (calculate_ats_cases pdf generateContent req)
    as [[-> _] | (buf & jd & Hf & Hj & _ & H)]; [now left|].
  destruct H as [[_ ->] | (text & Hp & [[_ ->] | (kt & _ & ->)])].
  - right. left. now exists buf.
  - right. right. exists buf, jd. rewrite Hp. repeat split; congruence.
  - right. right. exists buf, jd. rewrite Hp. repeat split; congruence.
Qed.

(** X9.  A score is sent only when both inputs are present and both
    collaborators succeeded, and it is then the score of the extracted
    text against the response of the generation service to the prompt
    of the job description. *)
Theorem score_only_on_success
    (pdf : list Byte.byte -> option string)
    (generateContent : string -> option string) (req : request)
    (score : Number) :
  fst (calculate_ats pdf generateContent req) = Json score ->
  exists resumeBuffer jd resumeText keywordsText,
    file req = Some resumeBuffer
    /\ jobDescription req = Some jd /\ jd <> ""
    /\ pdf resumeBuffer = Some resumeText
    /\ generateContent (keywordsPrompt jd) = Some keywordsText
    /\ score = ats_score keywordsText resumeText.
Proof.
  intros Hs.
  destruct (calculate_ats_cases pdf generateContent req)
    as [[H _] | (buf & jd & Hf & Hj & Hne & H)].
  - rewrite H in Hs. discriminate.
  - destruct H as [[_ H] | (text & Hp & [[_ H] | (kt & Hg & H)])];
      rewrite H in Hs; try discriminate.
    injection Hs as <-. now exists buf, jd, text, kt.
Qed.

Lemma score_only_on_success_witness :
  exists resumeBuffer jd resumeText keywordsText,
    Some ([] : list Byte.byte) = Some resumeBuffer
    /\ Some "Data engineer" = Some jd /\ jd <> ""
    /\ Some "Python developer" = Some resumeText
    /\ Some "python, sql" = Some keywordsText
    /\ of_Z 50 = ats_score keywordsText resumeText.
Proof.
  apply (score_only_on_success
           (fun _ => Some "Python developer") (fun _ => Some "python, sql")
           {| file := Some []; jobDescription := Some "Data engineer" |}
           (of_Z 50)).
  reflexivity.
Defined.

(** X10.  The request is refused with status 400 exactly when the
    resume file is missing or the job description is missing or empty;
    the refusal does not depend on the collaborators. *)
Theorem rejected_iff_input_missing
    (pdf : list Byte.byte -> option string)
    (generateContent : string -> option string) (req : request) :
  fst (calculate_ats pdf generateContent req)
  = Send 400 "Resume file and job description are required."
  <-> (file req = None \/ jobDescription req = None
       \/ jobDescription req = Some "").
Proof.
  split.
  - intros Hs.
    destruct (calculate_ats_cases pdf generateContent req)
      as [[_ [H|H]] | (buf & jd & Hf & Hj & Hne & H)].
    + now left.
    + right. destruct (jobDescription req) as [[|c jd]|]; auto.
      discriminate.
    + destruct H as [[_ H] | (text & Hp & [[_ H] | (kt & Hg & H)])];
        rewrite H in Hs; discriminate.
  - intros H. rewrite calculate_ats_rejects; [reflexivity|].
    destruct H as [H|[H|H]]; [now left | right; now rewrite H ..].
Qed.

(* ================================================================== *)
(** * Further properties: the accuracy of line 139

    The quotient of line 139 and its product with 100 are each within
    one unit in the last place of the exact value, which is far less
    than the distance of a percentage [100 * m / n], [n < 2^32], from
    the nearest tie unless it is one; so [Math.round] returns the
    exactly rounded percentage except at a tie. *)
(* ================================================================== *)

Module NumberAccuracy.

Open Scope Z_scope.

(** ** The quotient, within one unit in the last place *)

(** [W / 2^(-B)] is the quotient as a Number; it is within [1 / 2^(-B)]
    of [m / n]. *)
Lemma div_enclosure (m n : Z) :
  1 <= m <= n -> n < 2 ^ 53 ->
  exists Mq Eq W B,
    div (of_Z m) (of_Z n) = S754_finite false Mq Eq
    /\ 2 ^ 52 <= Zpos Mq < 2 ^ 53
    /\ -105 <= B <= -52
    /\ ((Eq = B /\ W = Zpos Mq) \/ (Eq = B + 1 /\ W = 2 * Zpos Mq))
    /\ m * 2 ^ (- B) - n <= W * n <= m * 2 ^ (- B) + n.
Proof.
  intros Hm Hn.
  destruct (of_Z_finite m) as (M1 & e1 & H1 & Hd1 & He1 & HM1); [lia|].
  destruct (of_Z_finite n) as (M2 & e2 & H2 & Hd2 & He2 & HM2); [lia|].
  pose proof (digits_53_bounds M1 Hd1) as HB1.
  pose proof (digits_53_bounds M2 Hd2) as HB2.
  assert (Hpa : 0 < 2 ^ (- e1)) by (apply Z.pow_pos_nonneg; lia).
  assert (Hpb : 0 < 2 ^ (- e2)) by (apply Z.pow_pos_nonneg; lia).
  assert (He : e1 <= e2).
  { destruct (Z.le_gt_cases e1 e2) as [|Hgt]; [assumption|exfalso].
    replace (- e2) with (Z.succ (e1 - e2 - 1) + (- e1)) in HM2 by lia.
    rewrite Z.pow_add_r, Z.pow_succ_r in HM2 by lia.
    assert (0 < 2 ^ (e1 - e2 - 1)) by (apply Z.pow_pos_nonneg; lia).
    assert (m * 2 ^ (- e1) <= n * 2 ^ (- e1)) by nia.
    assert (n * 2 ^ (- e1) <= 2 ^ (e1 - e2 - 1) * (n * 2 ^ (- e1))) by nia.
    lia. }
  unfold div. rewrite H1, H2. unfold SFdiv.
  rewrite SFdiv_core_53 by (try assumption; lia).
  set (q := Zpos M1 * 2 ^ 53 / Zpos M2).
  pose proof (quotient_53 _ _ HB1 HB2) as Hq. fold q in Hq.
  set (e' := e1 - e2 - 53).
  (* the quotient of the mantissas encloses m / n *)
  assert (Hqn : q * n <= m * 2 ^ (- e') < (q + 1) * n).
  { assert (Hdm : Zpos M2 * q <= Zpos M1 * 2 ^ 53 < Zpos M2 * (q + 1)).
    { unfold q. split.
      - apply Z.mul_div_le; lia.
      - pose proof (Z.mul_succ_div_gt (Zpos M1 * 2 ^ 53) (Zpos M2)). lia. }
    assert (Hab : 2 ^ (- e') * 2 ^ (- e2) = 2 ^ (- e1) * 2 ^ 53).
    { rewrite <- !Z.pow_add_r by (unfold e'; lia). f_equal. unfold e'. lia. }
    rewrite HM1, HM2 in Hdm.
    split.
    - apply (Z.mul_le_mono_pos_r _ _ (2 ^ (- e2))); [lia|]. nia.
    - apply (Z.mul_lt_mono_pos_r (2 ^ (- e2))); [lia|]. nia. }
  destruct q as [|pq|pq] eqn:Eq0; try lia.
  pose proof (digits2_bounds pq) as Hdq.
  set (dq := Zpos (digits2_pos pq)) in *.
  assert (Hdq' : 53 <= dq <= 54).
  { split.
    - destruct (Z.le_gt_cases 53 dq) as [|Hlt]; [assumption|].
      assert (2 ^ dq <= 2 ^ 52) by (apply Z.pow_le_mono_r; lia). lia.
    - destruct (Z.le_gt_cases dq 54) as [|Hgt]; [assumption|].
      assert (2 ^ 54 <= 2 ^ (dq - 1)) by (apply Z.pow_le_mono_r; lia). lia. }
  destruct (binary_round_aux_bounds (xorb false false) pq e'
              (new_location (Zpos M2) ((Zpos M1 * 2 ^ 53) mod Zpos M2)))
    as (Mq & Eq & HR & HMq & Hcase); fold dq; try (unfold e'; lia).
  fold dq in Hcase. set (k := dq - 53) in *.
  set (t := Zpos pq / 2 ^ k) in *.
  assert (HK : 0 < 2 ^ k) by (apply Z.pow_pos_nonneg; unfold k; lia).
  assert (Htq : 2 ^ k * t <= Zpos pq < 2 ^ k * (t + 1)).
  { unfold t. split.
    - apply Z.mul_div_le; lia.
    - pose proof (Z.mul_succ_div_gt (Zpos pq) (2 ^ k)). lia. }
  set (B := e' + k).
  assert (HA : 2 ^ (- e') = 2 ^ (- B) * 2 ^ k).
  { rewrite <- Z.pow_add_r by (unfold B, e', k; lia). f_equal. unfold B. lia. }
  assert (HAp : 0 < 2 ^ (- B))
    by (apply Z.pow_pos_nonneg; unfold B, e', k; lia).
  (* the truncated mantissa encloses m / n *)
  assert (Htn : t * n <= m * 2 ^ (- B) < (t + 1) * n).
  { rewrite HA in Hqn. split.
    - apply (Z.mul_le_mono_pos_r _ _ (2 ^ k)); [lia|]. nia.
    - apply (Z.mul_lt_mono_pos_r (2 ^ k)); [lia|]. nia. }
  exists Mq, Eq.
  destruct Hcase as [(-> & Hlo & Hhi) | (-> & HMq2 & Ht2)].
  - exists (Zpos Mq), B. split; [exact HR|]. split; [exact HMq|].
    split; [unfold B, e', k; lia|]. split; [left; split; reflexivity|].
    fold B. nia.
  - exists (2 * Zpos Mq), B. split; [exact HR|]. split; [exact HMq|].
    split; [unfold B, e', k; lia|]. split; [right; split; reflexivity|].
    rewrite HMq2. fold t in Ht2.
    replace (2 * 2 ^ 52) with (t + 1) by lia. nia.
Qed.


(** ** The product with 100, within one unit in the last place *)

Lemma mul_100_enclosure (Mq : positive) (Eq : Z) :
  2 ^ 52 <= Zpos Mq < 2 ^ 53 -> -105 <= Eq <= -51 ->
  exists Mr Er W k,
    mul (S754_finite false Mq Eq) (of_Z 100) = S754_finite false Mr Er
    /\ 52 <= k <= 53
    /\ ((Er = Eq - 46 + k /\ W = Zpos Mr)
        \/ (Er = Eq - 46 + k + 1 /\ W = 2 * Zpos Mr))
    /\ Zpos Mq * (100 * 2 ^ 46) - 2 ^ k <= W * 2 ^ k
       <= Zpos Mq * (100 * 2 ^ 46) + 2 ^ k.
Proof.
  intros HMq HEq. rewrite of_Z_100. unfold mul, SFmul.
  set (C := (100 * 2 ^ 46)%positive).
  assert (HC : Zpos C = 100 * 2 ^ 46) by reflexivity.
  set (P := (Mq * C)%positive).
  assert (HP : Zpos P = Zpos Mq * Zpos C) by reflexivity.
  pose proof (digits2_bounds P) as HdP.
  set (dP := Zpos (digits2_pos P)) in *.
  assert (HdP' : 105 <= dP <= 106).
  { split.
    - destruct (Z.le_gt_cases 105 dP) as [|Hlt]; [assumption|].
      assert (2 ^ dP <= 2 ^ 104) by (apply Z.pow_le_mono_r; lia). nia.
    - destruct (Z.le_gt_cases dP 106) as [|Hgt]; [assumption|].
      assert (2 ^ 106 <= 2 ^ (dP - 1)) by (apply Z.pow_le_mono_r; lia). nia. }
  destruct (binary_round_aux_bounds (xorb false false) P (Eq + -46) loc_Exact)
    as (Mr & Er & HR & HMr & Hcase); fold dP; try lia.
  fold dP in Hcase. set (k := dP - 53) in *.
  set (t := Zpos P / 2 ^ k) in *.
  assert (HK : 0 < 2 ^ k) by (apply Z.pow_pos_nonneg; unfold k; lia).
  assert (Htq : 2 ^ k * t <= Zpos P < 2 ^ k * (t + 1)).
  { unfold t. split.
    - apply Z.mul_div_le; lia.
    - pose proof (Z.mul_succ_div_gt (Zpos P) (2 ^ k)). lia. }
  rewrite HP, HC in Htq.
  exists Mr, Er.
  destruct Hcase as [(-> & Hlo & Hhi) | (-> & HMr2 & Ht2)].
  - exists (Zpos Mr), k. split; [exact HR|]. split; [unfold k; lia|].
    split; [left; split; lia|]. nia.
  - exists (2 * Zpos Mr), k. split; [exact HR|]. split; [unfold k; lia|].
    split; [right; split; lia|].
    rewrite HMr2. replace (2 * 2 ^ 52) with (t + 1) by lia. nia.
Qed.

(** ** Rounding a value that is close to [100 * m / n] *)

(** [W / X] is within [3 / X] of [100 * m / n] and [X] exceeds [6 * n]:
    then floor(W / X + 1/2) is the exactly rounded percentage, or one
    less when the percentage is a tie. *)
Lemma round_close (W X m n : Z) :
  0 < n -> 0 <= m -> 6 * n < X ->
  100 * m * X - 3 * n <= W * n <= 100 * m * X + 3 * n ->
  let z := (2 * W + X) / (2 * X) in
  let R := (200 * m + n) / (2 * n) in
  R - 1 <= z <= R /\ ((200 * m + n) mod (2 * n) <> 0 -> z = R).
Proof.
  intros Hn Hm HX HW z R.
  pose proof (Z.div_mod (200 * m + n) (2 * n) ltac:(lia)) as HN.
  pose proof (Z.mod_pos_bound (200 * m + n) (2 * n) ltac:(lia)) as Hrho.
  fold R in HN. set (rho := (200 * m + n) mod (2 * n)) in *.
  pose proof (Z.div_mod (2 * W + X) (2 * X) ltac:(lia)) as HZ.
  pose proof (Z.mod_pos_bound (2 * W + X) (2 * X) ltac:(lia)) as Hsig.
  fold z in HZ. set (sig := (2 * W + X) mod (2 * X)) in *.
  (* (2W + X) n lies within 6n of (200m + n) X *)
  assert (H1 : (2 * n * R + rho) * X - 6 * n <= (2 * X * z + sig) * n
               <= (2 * n * R + rho) * X + 6 * n).
  { rewrite <- HN, <- HZ. lia. }
  assert (Hlow : R - 1 <= z).
  { destruct (Z.le_gt_cases (R - 1) z) as [|Hlt]; [assumption|exfalso].
    assert (z + 2 <= R) by lia.
    assert (2 * X * n * (z + 2) <= 2 * X * n * R)
      by (apply Z.mul_le_mono_nonneg_l; nia).
    assert (sig * n < 2 * X * n) by nia.
    assert (0 <= rho * X) by nia.
    assert (6 * n < 2 * X * n) by nia.
    lia. }
  assert (Hupp : z <= R).
  { destruct (Z.le_gt_cases z R) as [|Hgt]; [assumption|exfalso].
    assert (R + 1 <= z) by lia.
    assert (2 * X * n * (R + 1) <= 2 * X * n * z)
      by (apply Z.mul_le_mono_nonneg_l; nia).
    assert (0 <= sig * n) by nia.
    assert (rho * X <= (2 * n - 1) * X) by nia.
    lia. }
  split; [lia|]. intros Hne.
  destruct (Z.eq_dec z R) as [|Hzr]; [assumption|exfalso].
  assert (Hz : z = R - 1) by lia.
  assert (sig * n < 2 * X * n) by nia.
  assert (X <= rho * X) by nia.
  rewrite Hz in H1. lia.
Qed.


Lemma Math_round_floor (Mr : positive) (Er : Z) :
  Er < 0 ->
  Math_round (S754_finite false Mr Er)
  = of_Z ((2 * Zpos Mr + 2 ^ (- Er)) / (2 * 2 ^ (- Er))).
Proof.
  intros HE. unfold Math_round.
  destruct (Z.leb_spec 0 Er) as [|_]; [lia|].
  assert (HX : 0 < 2 ^ (- Er)) by (apply Z.pow_pos_nonneg; lia).
  rewrite Z.pow_add_r by lia. change (2 ^ 1) with 2. unfold cond_Zopp.
  rewrite (Z.mul_comm (2 ^ (- Er)) 2).
  assert (Hz : 0 <= (2 * Zpos Mr + 2 ^ (- Er)) / (2 * 2 ^ (- Er)))
    by (apply Z.div_pos; lia).
  destruct ((2 * Zpos Mr + 2 ^ (- Er)) / (2 * 2 ^ (- Er)));
    [reflexivity | reflexivity | lia].
Qed.

(** ** The accuracy of line 139 *)

(** The percentage of line 139 is the exactly rounded percentage, or
    one less when [100 * m / n] is a tie. *)
Lemma percentage_accuracy (m n : nat) :
  (m <= n)%nat -> 1 <= Z.of_nat n < 2 ^ 32 ->
  exists z,
    percentage m n = of_Z z
    /\ 0 <= z
    /\ round_half_up (100 * Z.of_nat m) (Z.of_nat n) - 1 <= z
       <= round_half_up (100 * Z.of_nat m) (Z.of_nat n)
    /\ (is_tie m n = false ->
        z = round_half_up (100 * Z.of_nat m) (Z.of_nat n)).
Proof.
  intros Hmn Hn. unfold round_half_up, is_tie.
  replace (2 * (100 * Z.of_nat m)) with (200 * Z.of_nat m) by lia.
  destruct m as [|m'].
  { exists 0. split; [apply percentage_none; lia|].
    change (Z.of_nat 0) with 0. rewrite Z.mul_0_r, Z.add_0_l.
    rewrite (Z.div_small (Z.of_nat n)) by lia.
    split; [lia|]. split; [lia|reflexivity]. }
  set (m := S m') in *. unfold percentage, of_nat.
  set (zm := Z.of_nat m) in *. set (zn := Z.of_nat n) in *.
  assert (Hzm : 1 <= zm <= zn) by (unfold zm, zn, m; lia).
  destruct (div_enclosure zm zn) as (Mq & Eq & W & B & HD & HMq & HB & Hc & HW);
    [lia | lia |].
  rewrite HD.
  destruct (mul_100_enclosure Mq Eq)
    as (Mr & Er & W' & k & HM & Hk & Hc' & HW'); [lia | lia |].
  rewrite HM.
  assert (HErneg : Er < 0) by lia.
  rewrite Math_round_floor by assumption.
  set (B' := Eq - 46 + k) in *.
  set (X := 2 ^ (- B')).
  set (A := 2 ^ (- B)) in *.
  set (K := 2 ^ k) in *.
  assert (HK : 2 ^ 52 <= K) by (apply Z.pow_le_mono_r; lia).
  assert (HXlo : 2 ^ 44 <= X) by (apply Z.pow_le_mono_r; unfold B'; lia).
  (* the rounded product is within 3 / X of 100 m / n *)
  assert (Hclose : 100 * zm * X - 3 * zn <= W' * zn <= 100 * zm * X + 3 * zn).
  { destruct Hc as [(HEq & HWq) | (HEq & HWq)].
    - assert (HAX : 2 ^ 46 * A = K * X).
      { unfold A, K, X. rewrite <- !Z.pow_add_r by (unfold B'; lia).
        f_equal. unfold B'. lia. }
      subst W.
      assert (H1 : K * (100 * zm * X - 3 * zn) <= K * (W' * zn)) by nia.
      assert (H2 : K * (W' * zn) <= K * (100 * zm * X + 3 * zn)) by nia.
      split; apply (Z.mul_le_mono_pos_l _ _ K); lia.
    - assert (HAX : 2 ^ 46 * A = 2 * (K * X)).
      { unfold A, K, X. rewrite <- !Z.pow_add_r by (unfold B'; lia).
        rewrite <- Z.pow_succ_r by (unfold B'; lia).
        f_equal. unfold B'. lia. }
      subst W.
      assert (H1 : K * (100 * zm * X - 3 * zn) <= K * (W' * zn)) by nia.
      assert (H2 : K * (W' * zn) <= K * (100 * zm * X + 3 * zn)) by nia.
      split; apply (Z.mul_le_mono_pos_l _ _ K); lia. }
  pose proof (round_close W' X zm zn ltac:(lia) ltac:(lia) ltac:(lia) Hclose)
    as [Hrange Hexact].
  (* Math.round of the product is floor (W' / X + 1/2) *)
  assert (Hz : (2 * Zpos Mr + 2 ^ (- Er)) / (2 * 2 ^ (- Er))
               = (2 * W' + X) / (2 * X)).
  { destruct Hc' as [(HEr & HWr) | (HEr & HWr)].
    - subst W'. unfold X. now rewrite HEr.
    - assert (HXY : X = 2 * 2 ^ (- Er)).
      { unfold X. rewrite <- Z.pow_succ_r by lia. f_equal. lia. }
      rewrite HXY, HWr.
      replace (2 * (2 * Zpos Mr) + 2 * 2 ^ (- Er))
        with (2 * (2 * Zpos Mr + 2 ^ (- Er))) by lia.
      assert (0 < 2 ^ (- Er)) by (apply Z.pow_pos_nonneg; lia).
      now rewrite Z.div_mul_cancel_l by lia. }
  rewrite Hz.
  exists ((2 * W' + X) / (2 * X)). split; [reflexivity|].
  split; [apply Z.div_pos; lia|].
  split; [exact Hrange|].
  intros Htie. apply Hexact. apply Z.eqb_neq. exact Htie.
Qed.


Lemma round_half_up_le_100 (m n : Z) :
  0 <= m <= n -> 0 < n -> 0 <= round_half_up (100 * m) n <= 100.
Proof.
  intros Hm Hn. unfold round_half_up. split.
  - apply Z.div_pos; lia.
  - assert ((2 * (100 * m) + n) / (2 * n) < 101); [|lia].
    apply Z.div_lt_upper_bound; lia.
Qed.

Lemma round_half_up_mono (m m' n : Z) :
  0 <= m <= m' -> 0 < n ->
  round_half_up (100 * m) n <= round_half_up (100 * m') n.
Proof.
  intros Hm Hn. unfold round_half_up. apply Z.div_le_mono; lia.
Qed.

(** Below a tie the exactly rounded percentage is smaller by one at
    least. *)
Lemma round_half_up_below_tie (m m' n : Z) :
  0 <= m < m' -> 0 < n ->
  (200 * m' + n) mod (2 * n) = 0 ->
  round_half_up (100 * m) n <= round_half_up (100 * m') n - 1.
Proof.
  intros Hm Hn Htie. unfold round_half_up.
  replace (2 * (100 * m)) with (200 * m) by lia.
  replace (2 * (100 * m')) with (200 * m') by lia.
  pose proof (Z.div_mod (200 * m' + n) (2 * n) ltac:(lia)) as HN.
  rewrite Htie in HN.
  assert ((200 * m + n) / (2 * n) < (200 * m' + n) / (2 * n)); [|lia].
  apply Z.div_lt_upper_bound; lia.
Qed.

(** More matches never give a smaller percentage. *)
Lemma percentage_mono (m m' n : nat) :
  (m <= m')%nat -> (m' <= n)%nat -> 1 <= Z.of_nat n < 2 ^ 32 ->
  exists z z',
    percentage m n = of_Z z /\ percentage m' n = of_Z z'
    /\ 0 <= z <= z' /\ z' <= 100.
Proof.
  intros Hm Hm' Hn.
  destruct (Nat.eq_dec m m') as [<-|Hne].
  { destruct (percentage_accuracy m n) as (z & Hz & Hz0 & Hzr & _);
      [lia | lia |].
    pose proof (round_half_up_le_100 (Z.of_nat m) (Z.of_nat n)) as HR.
    exists z, z. repeat split; try assumption; lia. }
  destruct (percentage_accuracy m n) as (z & Hz & Hz0 & Hzr & _);
    [lia | lia |].
  destruct (percentage_accuracy m' n) as (z' & Hz' & Hz0' & Hzr' & Hex);
    [lia | lia |].
  pose proof (round_half_up_le_100 (Z.of_nat m') (Z.of_nat n)) as HR.
  exists z, z'. split; [assumption|]. split; [assumption|].
  assert (Hle : z <= z'); [|lia].
  destruct (is_tie m' n) eqn:Htie.
  - unfold is_tie in Htie. apply Z.eqb_eq in Htie.
    pose proof (round_half_up_below_tie (Z.of_nat m) (Z.of_nat m')
                  (Z.of_nat n)) as Hb.
    lia.
  - rewrite (Hex eq_refl).
    pose proof (round_half_up_mono (Z.of_nat m) (Z.of_nat m') (Z.of_nat n)).
    lia.
Qed.

(** ** Reading an integral Number *)

Lemma to_Z_of_Z (z : Z) : 0 <= z < 2 ^ 53 -> to_Z (of_Z z) = z.
Proof.
  intros Hz. destruct (Z.eq_dec z 0) as [->|Hne]; [reflexivity|].
  destruct (of_Z_finite z) as (M & E & HM & _ & HE & HMz); [lia|].
  rewrite HM. unfold to_Z, cond_Zopp.
  assert (0 < 2 ^ (- E)) by (apply Z.pow_pos_nonneg; lia).
  destruct (Z.leb_spec 0 E) as [H0|H0].
  - assert (E = 0) by lia. subst E. simpl in HMz. simpl. lia.
  - rewrite HMz. apply Z.div_mul. lia.
Qed.

Lemma of_Z_inj (z z' : Z) :
  0 <= z < 2 ^ 53 -> 0 <= z' < 2 ^ 53 -> of_Z z = of_Z z' -> z = z'.
Proof.
  intros Hz Hz' H. apply (f_equal to_Z) in H.
  now rewrite !to_Z_of_Z in H.
Qed.

End NumberAccuracy.

Import NumberAccuracy.

Lemma filter_length_all {A} (p : A -> bool) (l : list A) :
  List.length (filter p l) = List.length l ->
  forall x, In x l -> p x = true.
Proof.
  induction l as [|a l IH]; simpl; [contradiction|].
  pose proof (filter_length_le p l) as Hle.
  destruct (p a) eqn:Hp; simpl; intros H x [<-|Hx]; auto; lia.
Qed.

Lemma filter_length_none {A} (p : A -> bool) (l : list A) :
  List.length (filter p l) = 0%nat ->
  forall x, In x l -> p x = false.
Proof.
  induction l as [|a l IH]; simpl; [contradiction|].
  destruct (p a) eqn:Hp; simpl; intros H x [<-|Hx]; auto; discriminate.
Qed.

(** The score of one response against two resume texts, the second
    matching every keyword the first matches. *)
Lemma ats_score_mono (keywordsText resumeText resumeText' : string) :
  (forall k, In k (keywords_of keywordsText) ->
             includes (toLowerCase resumeText) k = true ->
             includes (toLowerCase resumeText') k = true) ->
  exists z z',
    ats_score keywordsText resumeText = of_Z z
    /\ ats_score keywordsText resumeText' = of_Z z'
    /\ (0 <= z <= z')%Z /\ (z' <= 100)%Z.
Proof.
  intros H. unfold ats_score, score_of. apply percentage_mono.
  - rewrite !matchCount_of_filter.
    induction (keywords_of keywordsText) as [|k ks IH]; simpl; [lia|].
    assert (IH' : (List.length (filter (includes (toLowerCase resumeText)) ks)
                   <= List.length
                        (filter (includes (toLowerCase resumeText')) ks))%nat).
    { apply IH. intros k' Hk'. apply H. now right. }
    destruct (includes (toLowerCase resumeText) k) eqn:Hk.
    + rewrite (H k (or_introl eq_refl) Hk). simpl. lia.
    + destruct (includes (toLowerCase resumeText') k); simpl; lia.
  - apply matchCount_of_le.
  - apply keywords_of_length.
Qed.

(** X11.  The returned score is the exactly rounded percentage
    round(100 * matchCount / len), ties upward, whenever the percentage
    is not halfway between two integers; at such a tie it is that value
    or one less.  It never differs by more than one. *)
Theorem score_accuracy (keywordsText resumeText : string) :
  let keywords := keywords_of keywordsText in
  let matchCount := matchCount_of keywords (toLowerCase resumeText) in
  exists z : Z,
    ats_score keywordsText resumeText = of_Z z
    /\ (spec_score keywords resumeText - 1 <= z
        <= spec_score keywords resumeText)%Z
    /\ (is_tie matchCount (List.length keywords) = false ->
        z = spec_score keywords resumeText).
Proof.
  intros keywords matchCount.
  unfold ats_score, score_of, spec_score. rewrite spec_matchCount_eq.
  fold keywords matchCount.
  destruct (percentage_accuracy matchCount (List.length keywords))
    as (z & Hz & _ & Hr & Hex).
  - apply matchCount_of_le.
  - apply keywords_of_length.
  - now exists z.
Qed.

(** X12.  A resume text that matches every keyword another one matches
    never gets the lower score. *)
Theorem more_matches_never_lower (keywordsText resumeText resumeText'
    : string) :
  (forall k, In k (keywords_of keywordsText) ->
             includes (toLowerCase resumeText) k = true ->
             includes (toLowerCase resumeText') k = true) ->
  exists z z',
    ats_score keywordsText resumeText = of_Z z
    /\ ats_score keywordsText resumeText' = of_Z z'
    /\ (0 <= z <= z')%Z /\ (z' <= 100)%Z.
Proof. apply ats_score_mono. Qed.

Lemma more_matches_never_lower_witness :
  exists z z',
    ats_score "Python, SQL, Docker" "Python developer" = of_Z z
    /\ ats_score "Python, SQL, Docker" "SQL and Python" = of_Z z'
    /\ (0 <= z <= z')%Z /\ (z' <= 100)%Z.
Proof.
  apply more_matches_never_lower.
  intros k [<-|[<-|[<-|[]]]]; vm_compute; intros H;
    (reflexivity || discriminate).
Defined.

(** X13.  A resume whose lower-cased text contains the lower-cased text
    of another resume never gets the lower score. *)
Theorem containing_resume_never_lower (keywordsText resumeText resumeText'
    : string) :
  includes (toLowerCase resumeText') (toLowerCase resumeText) = true ->
  exists z z',
    ats_score keywordsText resumeText = of_Z z
    /\ ats_score keywordsText resumeText' = of_Z z'
    /\ (0 <= z <= z')%Z /\ (z' <= 100)%Z.
Proof.
  intros H. apply ats_score_mono. intros k _ Hk.
  now apply includes_trans with (t := toLowerCase resumeText).
Qed.

Lemma containing_resume_never_lower_witness :
  exists z z',
    ats_score "Python, SQL, Docker" "Python" = of_Z z
    /\ ats_score "Python, SQL, Docker" "SQL and PYTHON developer" = of_Z z'
    /\ (0 <= z <= z')%Z /\ (z' <= 100)%Z.
Proof.
  apply containing_resume_never_lower. reflexivity.
Defined.

(** X14.  With fewer than 200 keywords the score is 100 exactly when
    every keyword occurs in the resume text, and 0 exactly when none
    does. *)
Theorem perfect_and_zero_scores (keywordsText resumeText : string) :
  (List.length (keywords_of keywordsText) < 200)%nat ->
  (ats_score keywordsText resumeText = of_Z 100
   <-> forall k, In k (keywords_of keywordsText) ->
                 includes (toLowerCase resumeText) k = true)
  /\ (ats_score keywordsText resumeText = of_Z 0
      <-> forall k, In k (keywords_of keywordsText) ->
                    includes (toLowerCase resumeText) k = false).
Proof.
  intros Hlen.
  pose proof (keywords_of_length keywordsText) as Hn.
  pose proof (matchCount_of_le (keywords_of keywordsText)
                (toLowerCase resumeText)) as Hmc.
  destruct (percentage_accuracy
              (matchCount_of (keywords_of keywordsText)
                 (toLowerCase resumeText))
              (List.length (keywords_of keywordsText)) Hmc Hn)
    as (z & Hz & Hz0 & Hr & Hex).
  set (n := List.length (keywords_of keywordsText)) in *.
  set (mc := matchCount_of (keywords_of keywordsText)
               (toLowerCase resumeText)) in *.
  pose proof (round_half_up_le_100 (Z.of_nat mc) (Z.of_nat n)
                ltac:(lia) ltac:(lia)) as HR.
  assert (Hs : ats_score keywordsText resumeText = of_Z z) by exact Hz.
  unfold round_half_up in *.
  replace (2 * (100 * Z.of_nat mc))%Z with (200 * Z.of_nat mc)%Z in * by lia.
  pose proof (Z.div_mod (200 * Z.of_nat mc + Z.of_nat n) (2 * Z.of_nat n)
                ltac:(lia)) as HN.
  pose proof (Z.mod_pos_bound (200 * Z.of_nat mc + Z.of_nat n)
                (2 * Z.of_nat n) ltac:(lia)) as Hrho.
  split; split.
  - intros H100. rewrite Hs in H100. apply of_Z_inj in H100; [|lia|lia].
    subst z.
    assert (Hall : mc = n) by nia.
    unfold mc in Hall. rewrite matchCount_of_filter in Hall.
    now apply filter_length_all.
  - apply ats_score_all.
  - intros H0. rewrite Hs in H0. apply of_Z_inj in H0; [|lia|lia].
    subst z.
    assert (Hnone : mc = 0%nat).
    { destruct (is_tie mc n) eqn:Htie.
      - unfold is_tie in Htie. apply Z.eqb_eq in Htie. nia.
      - specialize (Hex eq_refl). nia. }
    unfold mc in Hnone. rewrite matchCount_of_filter in Hnone.
    now apply filter_length_none.
  - apply ats_score_none.
Qed.

Lemma perfect_and_zero_scores_witness :
  (ats_score "Python, SQL" "Python and SQL" = of_Z 100
   <-> forall k, In k (keywords_of "Python, SQL") ->
                 includes (toLowerCase "Python and SQL") k = true)
  /\ (ats_score "Python, SQL" "Python and SQL" = of_Z 0
      <-> forall k, In k (keywords_of "Python, SQL") ->
                    includes (toLowerCase "Python and SQL") k = false).
Proof.
  apply perfect_and_zero_scores. vm_compute. lia.
Defined.
